(** * A ring buffer of events and the sequencer feeding it

    Shallow embedding of the [ringbuffer] package (RingBuffer, NewRingBuffer,
    Write, Reset, endOffset, Read) and of [WriteItems] from pgnotifier.go.

    Conventions of the embedding:
    - an [int64] is a [Z]; every arithmetic result of the Go code is passed
      through [wrap64] (two's complement wrap-around), Go's [%] is [Z.rem];
    - a [*Item] is an [option Item], [None] being the nil pointer;
    - a Go panic, a [cond.Wait()] that is never woken and an exhausted loop
      budget are outcomes of their own ([Outcome]);
    - every method body runs as one critical section; the only place where
      other goroutines act in the middle of a call is [cond.Wait()], whose
      caller resumes in the state left by the operations that ran meanwhile.
      (Reset takes [cond.L], the reader side of the RWMutex, as Read does;
      a Reset running inside a Read that is not waiting is not modelled;)
    - memory is unbounded: [make] only fails on a negative length/capacity. *)

From stdpp Require Import base numbers list option.

Open Scope Z_scope.

(** ** Machine integers *)

Definition min_int64 : Z := - 2 ^ 63.
Definition max_int64 : Z := 2 ^ 63 - 1.

Definition int64 (z : Z) : Prop := min_int64 <= z <= max_int64.

Definition wrap64 (z : Z) : Z := (z + 2 ^ 63) mod 2 ^ 64 - 2 ^ 63.

(** ** Outcomes of a call *)

Inductive Panic : Type :=
| DivideByZero      (* integer divide by zero *)
| IndexOutOfRange   (* index out of range *)
| MakesliceLen      (* makeslice: len out of range *)
| MakesliceCap.     (* makeslice: cap out of range *)

(** Why a call does not return: a panic, a wait nobody ends, a loop budget
    used up, or the process left through [log.Fatalf]. *)
Inductive Stop : Type :=
| Panicked (p : Panic)
| Blocked
| OutOfFuel
| Exited.

Inductive Outcome (A : Type) : Type :=
| Returns (a : A)
| Stops (s : Stop).

Arguments Returns {A} a.
Arguments Stops {A} s.

Abbreviation Panics p := (Stops (Panicked p)).
Abbreviation Blocks := (Stops Blocked).

#[global] Instance Outcome_ret : MRet Outcome := fun A a => Returns a.

#[global] Instance Outcome_bind : MBind Outcome := fun A B k m =>
  match m with
  | Returns a => k a
  | Stops s => Stops s
  end.

(** ** package ringbuffer *)

Module ringbuffer.

Record Item : Type := { Id : Z }.

Record RingBuffer : Type := {
  buffer : list (option Item);
  size : Z;     (* Length of buffer *)
  start : Z;    (* Start offset within ring buffer *)
  end_ : Z      (* End offset in ring buffer (exclusive). *)
}.

(** Creates a buffer of a given size and with a given offset. *)
Definition NewRingBuffer (size : Z) (start : Z) : Outcome RingBuffer :=
  if size <? 0 then Panics MakesliceLen
  else Returns {| buffer := replicate (Z.to_nat size) None;
                  size := size;
                  start := start;
                  end_ := start |}.

(** Writes an item to the ring buffer (and notifies all waiting readers). *)
Definition Write (rb : RingBuffer) (item : Item) : Outcome RingBuffer :=
  if size rb =? 0 then Panics DivideByZero
  else
    let bufOffset := Z.rem (end_ rb) (size rb) in
    if (bufOffset <? 0) || (Z.of_nat (length (buffer rb)) <=? bufOffset)
    then Panics IndexOutOfRange
    else
      let buffer' := <[Z.to_nat bufOffset := Some item]> (buffer rb) in
      let start' := if wrap64 (end_ rb - start rb) =? size rb
                    then wrap64 (start rb + 1)  (* advance start if we've exceeded size *)
                    else start rb in
      Returns {| buffer := buffer';
                 size := size rb;
                 start := start';
                 end_ := wrap64 (end_ rb + 1) |}.

(** Resets the buffer to a new offset (and releases all waiting readers). *)
Definition Reset (rb : RingBuffer) (start : Z) : RingBuffer :=
  {| buffer := buffer rb; size := size rb; start := start; end_ := start |}.

Inductive CtxError : Type := Canceled | DeadlineExceeded.

Inductive Error : Type :=
| ErrAfterBuffer
| ErrBeforeBuffer (start rb_start distance : Z)  (* wrapped with the offsets *)
| CtxErr (e : CtxError).

(** The two mutators, as the operations other goroutines perform. *)
Inductive Op : Type :=
| OpWrite (item : Item)
| OpReset (start : Z).

Definition apply (o : Op) (rb : RingBuffer) : Outcome RingBuffer :=
  match o with
  | OpWrite item => Write rb item
  | OpReset s => Returns (Reset rb s)
  end.

Fixpoint run (ops : list Op) (rb : RingBuffer) : Outcome RingBuffer :=
  match ops with
  | [] => Returns rb
  | o :: ops' => rb' ← apply o rb; run ops' rb'
  end.

(** What a reader sees: the buffer and the state of its own context. *)
Record World : Type := {
  rb : RingBuffer;
  ctx_Err : option CtxError
}.

(** What happens while a reader sleeps in [cond.Wait()]: mutations of the
    buffer, each followed by a Broadcast, and the cancellation of the
    reader's context, which wakes nobody. *)
Inductive Event : Type :=
| Mutate (o : Op)
| Cancel (e : CtxError).

Definition broadcasts (ev : Event) : bool :=
  match ev with Mutate _ => true | Cancel _ => false end.

Definition occur (ev : Event) (w : World) : Outcome World :=
  match ev with
  | Mutate o => rb' ← apply o (rb w); Returns {| rb := rb'; ctx_Err := ctx_Err w |}
  | Cancel e =>
      Returns {| rb := rb w;
                 ctx_Err := match ctx_Err w with Some e0 => Some e0 | None => Some e end |}
  end.

Fixpoint occur_all (env : list Event) (w : World) : Outcome World :=
  match env with
  | [] => Returns w
  | ev :: env' => w' ← occur ev w; occur_all env' w'
  end.

(** [cond.Wait()]: returns only after a Broadcast, in the state reached by
    everything that ran before the lock was taken again. *)
Definition Wait (w : World) (env : list Event) : Outcome World :=
  if existsb broadcasts env then occur_all env w else Blocks.

(** Return the end offset to read up to in our buffer, given a start offset. *)
Definition endOffset (w : World) (env : list Event) (start_ : Z)
  : Outcome (World * (Z * option Error)) :=
  if start_ <? start (rb w) then
    Returns (w, (-1, Some (ErrBeforeBuffer start_ (start (rb w))
                                           (wrap64 (start (rb w) - start_)))))
  else if start_ <? end_ (rb w) then
    (* Don't wait for new records. We already have ones to process. *)
    Returns (w, (end_ (rb w), None))
  else if start_ =? end_ (rb w) then
    (* No new records to process just yet. Wait. *)
    w' ← Wait w env;
    Returns (w', (end_ (rb w'), None))
  else
    Returns (w, (-1, Some ErrAfterBuffer)).

(** The loop [for ; start < end; start++] of Read. *)
Fixpoint read_loop (fuel : nat) (b : RingBuffer) (end' start_ : Z)
    (items : list (option Item)) : Outcome (Z * list (option Item)) :=
  if start_ <? end' then
    match fuel with
    | O => Stops OutOfFuel
    | S fuel' =>
        if size b =? 0 then Panics DivideByZero
        else
          let bufOffset := Z.rem start_ (size b) in
          if (bufOffset <? 0) || (Z.of_nat (length (buffer b)) <=? bufOffset)
          then Panics IndexOutOfRange
          else
            match buffer b !! Z.to_nat bufOffset with
            | Some slot => read_loop fuel' b end' (wrap64 (start_ + 1)) (items ++ [slot])
            | None => Panics IndexOutOfRange
            end
    end
  else Returns (start_, items).

(** Reads any pending items from the ring buffer, returning the next
    offset to read. A nil slice of items is the empty list. *)
Definition Read (w : World) (env : list Event) (start_ : Z)
  : Outcome (Z * list (option Item) * option Error) :=
  '(w', (end', err)) ← endOffset w env start_;
  match err with
  | Some e => Returns (start_, [], Some e)
  | None =>
      (* Check that we didn't timeout calls to Lock() / Wait() above. *)
      match ctx_Err w' with
      | Some e => Returns (start_, [], Some (CtxErr e))
      | None =>
          if wrap64 (end' - start_) <? 0 then Panics MakesliceCap
          else
            '(next, items) ← read_loop (Z.to_nat (end' - start_)) (rb w') end' start_ [];
            Returns (next, items, None)
      end
  end.

End ringbuffer.

(** ** pgnotifier.go: the loop that feeds the buffer *)

Module pgnotifier.
Import ringbuffer.

(** What one call of [waitItem] hands back. The listener, the retry timer
    and [strconv.ParseInt] stay outside: a notification whose payload
    parses gives an item, one that does not gives an error, and a quiet
    [retryWait] gives neither. *)
Inductive Waited : Type :=
| GotItem (item : Item)   (* return &ringbuffer.Item{i}, nil *)
| GotNothing              (* return nil, nil *)
| GotError.               (* return nil, err *)

(** The variables of [WriteItems], with the calls it has made on [rb]. *)
Record Sequencer : Type := {
  lastId : Z;
  rb : RingBuffer;
  calls : list Op
}.

(** State of the loop threaded through, and an outcome. *)
Definition M (A : Type) : Type := Sequencer -> Sequencer * Outcome A.

#[global] Instance M_ret : MRet M := fun A a st => (st, Returns a).

#[global] Instance M_bind : MBind M := fun A B k m st =>
  match m st with
  | (st', Returns a) => k a st'
  | (st', Stops s) => (st', Stops s)
  end.

Definition rb_call (o : Op) : M unit := fun st =>
  let made := calls st ++ [o] in
  match apply o (rb st) with
  | Returns rb' => ({| lastId := lastId st; rb := rb'; calls := made |}, Returns tt)
  | Stops s => ({| lastId := lastId st; rb := rb st; calls := made |}, Stops s)
  end.

Definition get_lastId : M Z := fun st => (st, Returns (lastId st)).

Definition set_lastId (id : Z) : M unit := fun st =>
  ({| lastId := id; rb := rb st; calls := calls st |}, Returns tt).

Definition log_Fatalf : M unit := fun st => (st, Stops Exited).

(** One turn of the [for] loop of [WriteItems]. *)
Definition iteration (r : Waited) : M unit :=
  match r with
  | GotError => log_Fatalf
  | GotNothing => mret tt   (* continue *)
  | GotItem item =>
      last ← get_lastId;
      (if Id item =? wrap64 (last + 1)
       then rb_call (OpWrite item)
       else
         (* We've missed notifications, or we're starting fresh. Clean
            out the buffer. *)
         rb_call (OpReset (Id item));; rb_call (OpWrite item));;
      set_lastId (Id item)
  end.

Fixpoint loop (waits : list Waited) : M unit :=
  match waits with
  | [] => mret tt
  | r :: waits' => iteration r;; loop waits'
  end.

(** [WriteItems] on the results of its successive [waitItem] calls. *)
Definition WriteItems (waits : list Waited) (rb : RingBuffer)
  : Sequencer * Outcome unit :=
  loop waits {| lastId := -1; rb := rb; calls := [] |}.

End pgnotifier.

(** ** pgnotifier.go: the loop that reads the buffer *)

Module reader.
Import ringbuffer.

(** The case the [select] at the end of a turn takes. *)
Inductive Chosen : Type :=
| Tick    (* case <-tick *)
| Done.   (* case <-ctx.Done() *)

(** What the other goroutines do during one turn of the loop of
    [GetUpdates]: [waiting] runs while Read waits if it does ([pausing]
    then runs during the [select]); if Read does not wait, both run, in this
    order, after it has returned. *)
Record Round : Type := {
  waiting : list Event;
  pausing : list Event;
  chosen : Chosen
}.

(** The two [log.Printf] of the loop; the ids stand for their decimal
    strings, and the request id and the times are left out. *)
Inductive Line : Type :=
| LogError (err : Error)
| LogIds (ids : list Z).

(** How [GetUpdates] ends, or fails to. *)
Inductive Ended : Type :=
| Err (err : Error)    (* return err, return ctx.Err() *)
| NilItem              (* panic: nil pointer dereference, at item.Id *)
| Stopped (s : Stop)   (* Read, or a call of another goroutine, did not return *)
| Waiting              (* no tick and the context live: the select never fires *)
| Unfinished.          (* still looping after the last round given *)

(** [for _, item := range items { ids = append(ids, FormatInt(item.Id)) }] *)
Fixpoint item_ids (items : list (option Item)) (ids : list Z) : option (list Z) :=
  match items with
  | [] => Some ids
  | None :: _ => None
  | Some item :: items' => item_ids items' (ids ++ [Id item])
  end.

(** Read waits on this start. *)
Definition waits (w : World) (start_ : Z) : bool :=
  negb (start_ <? start (rb w)) && negb (start_ <? end_ (rb w)) && (start_ =? end_ (rb w)).

(** The world at the end of the [select] of a turn. *)
Definition turn_end (w : World) (r : Round) (start_ : Z) : Outcome World :=
  if waits w start_
  then w' ← Wait w (waiting r); occur_all (pausing r) w'
  else occur_all (waiting r ++ pausing r) w.

Fixpoint GetUpdates (rounds : list Round) (w : World) (start_ : Z) (log : list Line)
  : list Line * Ended :=
  match rounds with
  | [] => (log, Unfinished)
  | r :: rounds' =>
      match Read w (waiting r) start_ with
      | Stops s => (log, Stopped s)
      | Returns (_, _, Some err) => (log ++ [LogError err], Err err)
      | Returns (next, items, None) =>
          match item_ids items [] with
          | None => (log, NilItem)
          | Some ids =>
              let log' := log ++ [LogIds ids] in
              (* Wait before trying to fetch again *)
              match turn_end w r start_ with
              | Stops s => (log', Stopped s)
              | Returns w' =>
                  match chosen r with
                  | Tick => GetUpdates rounds' w' next log'
                  | Done =>
                      match ctx_Err w' with
                      | Some e => (log', Err (CtxErr e))
                      | None => (log', Waiting)
                      end
                  end
              end
          end
      end
  end.

End reader.

(** ** README: Read as rewritten by 2020-02-09 *)

Module rewritten.
Import ringbuffer.

Section AgentEvents.

(** [pb.AgentEvent], of which Read uses the field [AgentId]. *)
Variable AgentEvent : Type.
Variable AgentId : AgentEvent -> Z.

Record RingBuffer : Type := {
  buffer : list (option AgentEvent);
  size : Z;
  start : Z;
  end_ : Z
}.

(** What [cond.Wait()] returns to: the buffer as the Writes and Resets of
    this version, which the README does not show, left it, and the error
    of the context by then. *)
Record Woken : Type := {
  found : RingBuffer;
  ctx_Err : option CtxError
}.

Inductive Result : Type :=
| Ret (next : Z) (items : list (option AgentEvent)) (err : option Error)
| NilDereference   (* panic: nil pointer dereference, at .AgentId *)
| Halt (s : Stop).

(** The loop [for ; start < rb.end; start++] with its filter. *)
Fixpoint collect (fuel : nat) (rb : RingBuffer) (agentId start_ : Z)
    (items : list (option AgentEvent)) : Result :=
  if start_ <? end_ rb then
    match fuel with
    | O => Halt OutOfFuel
    | S fuel' =>
        if size rb =? 0 then Halt (Panicked DivideByZero)
        else
          let bufOffset := Z.rem start_ (size rb) in
          if (bufOffset <? 0) || (Z.of_nat (length (buffer rb)) <=? bufOffset)
          then Halt (Panicked IndexOutOfRange)
          else
            match buffer rb !! Z.to_nat bufOffset with
            | None => Halt (Panicked IndexOutOfRange)
            | Some slot =>
                if agentId =? 0
                then collect fuel' rb agentId (wrap64 (start_ + 1)) (items ++ [slot])
                else
                  match slot with
                  | None => NilDereference
                  | Some ev =>
                      if AgentId ev =? agentId
                      then collect fuel' rb agentId (wrap64 (start_ + 1)) (items ++ [slot])
                      else collect fuel' rb agentId (wrap64 (start_ + 1)) items
                  end
            end
    end
  else Ret start_ items None.

(** From [items := make(...)] to the end of Read. *)
Definition pending (rb : RingBuffer) (agentId start_ : Z) : Result :=
  if wrap64 (end_ rb - start_) <? 0 then Halt (Panicked MakesliceCap)
  else collect (Z.to_nat (end_ rb - start_)) rb agentId start_ [].

(** Reads all matching items from the ring buffer. [woken] is what the
    wait, if there is one, returns to; [None] if nothing ever ends it. *)
Definition Read (rb : RingBuffer) (woken : option Woken) (agentId start_ : Z) : Result :=
  if start_ <? start rb then
    Ret (start rb) []
        (Some (ErrBeforeBuffer start_ (start rb) (wrap64 (start rb - start_))))
  else if start_ <? end_ rb then
    (* Don't wait for new records. We already have ones to process. *)
    pending rb agentId start_
  else
    (* No new records to process just yet. Wait() *)
    match woken with
    | None => Halt Blocked
    | Some wk =>
        match ctx_Err wk with
        | Some e =>
            (* Bail if we timed out/cancelled during wait *)
            Ret start_ [] (Some (CtxErr e))
        | None =>
            let rb' := found wk in
            if start_ <? start rb' then
              Ret (start rb') []
                  (Some (ErrBeforeBuffer start_ (start rb') (wrap64 (start rb' - start_))))
            else if start_ <? end_ rb' then
              (* We have records. Process them. *)
              pending rb' agentId start_
            else if start_ =? end_ rb' then Ret start_ [] None
            else Ret start_ [] (Some ErrAfterBuffer)
        end
    end.

End AgentEvents.

Arguments buffer {AgentEvent} _.
Arguments size {AgentEvent} _.
Arguments start {AgentEvent} _.
Arguments end_ {AgentEvent} _.
Arguments found {AgentEvent} _.
Arguments ctx_Err {AgentEvent} _.
Arguments Ret {AgentEvent} next items err.
Arguments NilDereference {AgentEvent}.
Arguments Halt {AgentEvent} s.
Arguments collect {AgentEvent} AgentId fuel rb agentId start_ items.
Arguments pending {AgentEvent} AgentId rb agentId start_.
Arguments Read {AgentEvent} AgentId rb woken agentId start_.

End rewritten.

(** ** Vocabulary of the properties *)

Import ringbuffer.

(** The reader's world when its context is still live. *)
Definition live (b : RingBuffer) : World := {| rb := b; ctx_Err := None |}.

(** The reader's world when its context was cancelled before the call. *)
Definition cancelled (e : CtxError) (b : RingBuffer) : World :=
  {| rb := b; ctx_Err := Some e |}.

(** The arguments of an operation are values of their Go types. *)
Definition typed_op (o : Op) : Prop :=
  match o with
  | OpWrite _ => True
  | OpReset s => int64 s
  end.

Definition typed_event (ev : Event) : Prop :=
  match ev with
  | Mutate o => typed_op o
  | Cancel _ => True
  end.

(** The fields of a buffer are values of their Go types, and [size] is the
    length of [buffer], as [NewRingBuffer] sets it. *)
Record typed (b : RingBuffer) : Prop := {
  typed_size : 0 <= size b <= max_int64;
  typed_length : Z.of_nat (length (buffer b)) = size b;
  typed_start : int64 (start b);
  typed_end : int64 (end_ b)
}.

(** No [rb.end++] of the run wraps around. *)
Fixpoint no_wrap (ops : list Op) (b : RingBuffer) : Prop :=
  match ops with
  | [] => True
  | o :: ops' =>
      match o with OpWrite _ => end_ b < max_int64 | OpReset _ => True end /\
      match apply o b with
      | Returns b' => no_wrap ops' b'
      | Stops _ => True
      end
  end.

(** The item last written at each virtual offset, along a run. *)
Definition History : Type := Z -> option Item.

Definition record (o : Op) (b : RingBuffer) (h : History) : History :=
  match o with
  | OpWrite item => fun i => if i =? end_ b then Some item else h i
  | OpReset _ => h
  end.

Fixpoint written (ops : list Op) (b : RingBuffer) (h : History) : History :=
  match ops with
  | [] => h
  | o :: ops' =>
      match apply o b with
      | Returns b' => written ops' b' (record o b h)
      | Stops _ => h
      end
  end.

(** The offsets at which a list of calls resets the buffer. *)
Definition resets (cs : list Op) : list Z :=
  omap (fun o => match o with OpReset s => Some s | OpWrite _ => None end) cs.

Definition item (id : Z) : Item := {| Id := id |}.

Definition writes (ids : list Z) : list Op := map (fun id => OpWrite (item id)) ids.

Definition got (ids : list Z) : list pgnotifier.Waited :=
  map (fun id => pgnotifier.GotItem (item id)) ids.

(** The window invariant: [start <= end] and at most [size] offsets. *)
Definition window_ok (b : RingBuffer) : Prop :=
  start b <= end_ b /\ end_ b - start b <= size b.

(** The slot of offset [i] exists and holds the item last written at [i]. *)
Definition holds (b : RingBuffer) (h : History) (i : Z) : Prop :=
  0 <= Z.rem i (size b) /\
  exists it, h i = Some it /\ buffer b !! Z.to_nat (Z.rem i (size b)) = Some (Some it).

(** The buffer agrees with the history on its window, the window being
    counted as the code counts it, in int64 arithmetic from [start]. *)
Definition consistent (b : RingBuffer) (h : History) : Prop :=
  0 <= wrap64 (end_ b - start b) <= size b /\
  forall j, 0 <= j < wrap64 (end_ b - start b) -> holds b h (wrap64 (start b + j)).

(** The buffer [NewRingBuffer n s0] returns, and the same after Writes of
    items with the given ids. *)
Definition fresh (n s0 : Z) : RingBuffer :=
  {| buffer := replicate (Z.to_nat n) None; size := n; start := s0; end_ := s0 |}.

Definition filled (n s0 : Z) (ids : list Z) : RingBuffer :=
  match run (writes ids) (fresh n s0) with
  | Returns b => b
  | Stops _ => fresh n s0
  end.

(** The ids [waitItem] hands over come from [strconv.ParseInt(_, 10, 64)]. *)
Definition typed_wait (r : pgnotifier.Waited) : Prop :=
  match r with
  | pgnotifier.GotItem it => int64 (Id it)
  | _ => True
  end.

(** The calls [WriteItems] decides on for an item, from [lastId]. *)
Definition decided (last : Z) (it : Item) : list Op :=
  if Id it =? wrap64 (last + 1) then [OpWrite it] else [OpReset (Id it); OpWrite it].

(** What [WriteItems] maintains between two turns of its loop, on a buffer
    that started as [b0]: the buffer is the result of the calls made, its
    end is the id expected next, and every item sits at the offset that is
    its id. *)
Definition in_step (b0 : RingBuffer) (st : pgnotifier.Sequencer) : Prop :=
  run (pgnotifier.calls st) b0 = Returns (pgnotifier.rb st) /\
  Forall typed_op (pgnotifier.calls st) /\
  end_ (pgnotifier.rb st) = wrap64 (pgnotifier.lastId st + 1) /\
  forall i it, written (pgnotifier.calls st) b0 (fun _ => None) i = Some it -> Id it = i.

(** The calls [WriteItems] is to make on a run of [waitItem] results, from
    the ids alone. *)
Fixpoint plan (last : Z) (waits : list pgnotifier.Waited) : list Op :=
  match waits with
  | [] => []
  | pgnotifier.GotItem it :: waits' => decided last it ++ plan (Id it) waits'
  | pgnotifier.GotNothing :: waits' => plan last waits'
  | pgnotifier.GotError :: _ => []
  end.

(** A result of [waitItem] that does not stop the loop on a buffer of
    positive capacity: no error, and no negative id. *)
Definition feedable (r : pgnotifier.Waited) : Prop :=
  match r with
  | pgnotifier.GotItem it => 0 <= Id it
  | pgnotifier.GotNothing => True
  | pgnotifier.GotError => False
  end.

(** A result of [waitItem] that is not a quiet [retryWait]. *)
Definition heard (r : pgnotifier.Waited) : bool :=
  match r with
  | pgnotifier.GotNothing => false
  | _ => true
  end.

(** The mutations among the events, in order. *)
Definition ops_of (env : list Event) : list Op :=
  omap (fun ev => match ev with Mutate o => Some o | Cancel _ => None end) env.

(** The error of a context after the events. *)
Fixpoint cancel_after (env : list Event) (c : option CtxError) : option CtxError :=
  match env with
  | [] => c
  | Mutate _ :: env' => cancel_after env' c
  | Cancel e :: env' =>
      cancel_after env' (match c with Some e0 => Some e0 | None => Some e end)
  end.

(** The mutations of a script of rounds, in order. *)
Definition script_ops (rounds : list reader.Round) : list Op :=
  concat (map (fun r => ops_of (reader.waiting r) ++ ops_of (reader.pausing r)) rounds).

(** Writes of items whose ids run on from [e], and nothing else. *)
Fixpoint consecutive (e : Z) (ops : list Op) : Prop :=
  match ops with
  | [] => True
  | OpWrite it :: ops' => Id it = e /\ consecutive (e + 1) ops'
  | OpReset _ :: _ => False
  end.

(** The history in which every offset holds the item of that id. *)
Definition by_id : History := fun i => Some (item i).

(** The ids on the lines logged, in order. *)
Definition logged_ids (log : list reader.Line) : list Z :=
  concat (map (fun l => match l with
                        | reader.LogIds ids => ids
                        | reader.LogError _ => []
                        end) log).

(** The filter of the rewritten Read on one slot. *)
Definition matching {AgentEvent : Type} (AgentId : AgentEvent -> Z) (agentId : Z)
    (slot : option AgentEvent) : bool :=
  match slot with
  | Some ev => AgentId ev =? agentId
  | None => false
  end.

(** The slot of an offset in a buffer of the rewritten Read (nil when
    there is none), and the slots its filter lets through. *)
Definition slot_at {AgentEvent : Type} (b : rewritten.RingBuffer AgentEvent) (i : Z)
  : option AgentEvent :=
  match rewritten.buffer b !! Z.to_nat (Z.rem i (rewritten.size b)) with
  | Some slot => slot
  | None => None
  end.

Definition keep {AgentEvent : Type} (AgentId : AgentEvent -> Z) (agentId : Z)
    (slot : option AgentEvent) : bool :=
  (agentId =? 0) || matching AgentId agentId slot.

Ltac evaluated := vm_compute; first [reflexivity | discriminate].

Ltac bounded := split; evaluated.

Ltac all_of :=
  repeat first [apply Forall_nil_2 | apply Forall_cons_2];
  first [exact I | evaluated | bounded].

Ltac typed_here :=
  split; [bounded | evaluated | bounded | bounded].


(** ** Machine arithmetic *)

Section Wrap.

Lemma wrap64_id z : int64 z -> wrap64 z = z.
Proof.
  unfold int64, wrap64, min_int64, max_int64. intros H.
  rewrite Z.mod_small; lia.
Qed.

Lemma wrap64_int64 z : int64 (wrap64 z).
Proof.
  unfold int64, wrap64, min_int64, max_int64.
  pose proof (Z.mod_pos_bound (z + 2 ^ 63) (2 ^ 64)). lia.
Qed.

Lemma wrap64_succ z : min_int64 <= z < max_int64 -> wrap64 (z + 1) = z + 1.
Proof.
  intros H. apply wrap64_id. unfold int64, min_int64, max_int64 in *. lia.
Qed.

Lemma wrap64_max : wrap64 (max_int64 + 1) = min_int64.
Proof. reflexivity. Qed.

Lemma wrap64_unique z a k : int64 a -> a = z + 2 ^ 64 * k -> wrap64 z = a.
Proof.
  intros Ha Hk. unfold wrap64.
  replace (z + 2 ^ 63) with (a + 2 ^ 63 + (- k) * 2 ^ 64) by lia.
  rewrite Z_mod_plus_full. apply wrap64_id in Ha. exact Ha.
Qed.

Lemma wrap64_cong z : exists k, wrap64 z = z + 2 ^ 64 * k.
Proof.
  exists (- ((z + 2 ^ 63) `div` 2 ^ 64)). unfold wrap64.
  pose proof (Z.div_mod (z + 2 ^ 63) (2 ^ 64)). lia.
Qed.

Lemma wrap64_add_l a c : wrap64 (wrap64 a + c) = wrap64 (a + c).
Proof.
  destruct (wrap64_cong a) as [k Hk]. destruct (wrap64_cong (a + c)) as [k' Hk'].
  apply (wrap64_unique _ _ (k' - k)); [apply wrap64_int64 | lia].
Qed.

(** Go's remainder takes the sign of the dividend. *)
Lemma rem_negative_slot a n : a < 0 -> 0 < n -> 0 <= Z.rem a n -> Z.rem a n = 0.
Proof.
  intros Ha Hn H. pose proof (Z.rem_nonpos a n). lia.
Qed.

Lemma no_multiple_between n z : 0 < n * z < n -> False.
Proof.
  intros [H1 H2]. assert (0 < n) by lia.
  destruct (Z_le_gt_dec z 0); nia.
Qed.

(** Two offsets less than [n] apart whose slots both exist have different
    slots, also across the wrap-around of int64, provided the slots of the
    offsets in between exist too. *)
Lemma slots_apart n o d :
  0 < n <= max_int64 -> int64 o -> 0 < d < n ->
  (forall d1, 0 <= d1 <= d -> 0 <= Z.rem (wrap64 (o + d1)) n) ->
  Z.rem o n <> Z.rem (wrap64 (o + d)) n.
Proof.
  intros Hn Ho Hd Hslots Heq.
  assert (Hquot : forall a, a = n * (a ÷ n) + Z.rem a n)
    by (intros a; apply Z.quot_rem'; lia).
  destruct (Z_le_gt_dec (o + d) max_int64) as [Hle | Hgt].
  - rewrite wrap64_id in Heq by (unfold int64, min_int64, max_int64 in *; lia).
    pose proof (Hquot o) as Ho'. pose proof (Hquot (o + d)) as Hod.
    apply (no_multiple_between n ((o + d) ÷ n - o ÷ n)).
    rewrite <- Heq in Hod. clear Hquot Hslots Heq.
    generalize dependent (Z.rem o n). generalize dependent (o ÷ n).
    generalize dependent ((o + d) ÷ n). intros. lia.
  - assert (He : wrap64 (o + d) = o + d - 2 ^ 64).
    { apply (wrap64_unique _ _ (-1)); [| lia].
      unfold int64, min_int64, max_int64 in *. lia. }
    assert (He0 : Z.rem (wrap64 (o + d)) n = 0).
    { apply rem_negative_slot; [| lia |].
      - rewrite He. unfold int64, min_int64, max_int64 in *. lia.
      - apply Hslots. lia. }
    rewrite He0 in Heq. rewrite He in He0.
    pose proof (Hquot o) as Ho'. pose proof (Hquot (o + d - 2 ^ 64)) as Hod.
    rewrite Heq in Ho'. rewrite He0 in Hod.
    assert (Hmin : Z.rem min_int64 n = 0).
    { apply rem_negative_slot; [reflexivity | lia |].
      replace min_int64 with (wrap64 (o + (2 ^ 63 - o))).
      - apply Hslots. unfold int64, min_int64, max_int64 in *. lia.
      - replace (o + (2 ^ 63 - o)) with (max_int64 + 1) by (unfold max_int64; lia).
        reflexivity. }
    pose proof (Hquot min_int64) as Hm. rewrite Hmin in Hm.
    apply (no_multiple_between n ((o + d - 2 ^ 64) ÷ n - 2 * (min_int64 ÷ n) - o ÷ n)).
    clear Hquot Hslots Heq He He0 Hmin.
    generalize dependent (o ÷ n). generalize dependent ((o + d - 2 ^ 64) ÷ n).
    generalize dependent (min_int64 ÷ n). intros.
    unfold int64, min_int64, max_int64 in *. lia.
Qed.

End Wrap.

(** ** Read: the paths that do not wait *)

Section ReadNow.

Implicit Types (w : World) (env : list Event) (s : Z).

Lemma endOffset_before w env s :
  s < start (rb w) ->
  endOffset w env s =
    Returns (w, (-1, Some (ErrBeforeBuffer s (start (rb w)) (wrap64 (start (rb w) - s))))).
Proof.
  intros H. unfold endOffset.
  destruct (Z.ltb_spec s (start (rb w))); [reflexivity | lia].
Qed.

Lemma endOffset_within w env s :
  start (rb w) <= s < end_ (rb w) ->
  endOffset w env s = Returns (w, (end_ (rb w), None)).
Proof.
  intros [H1 H2]. unfold endOffset.
  destruct (Z.ltb_spec s (start (rb w))); [lia |].
  destruct (Z.ltb_spec s (end_ (rb w))); [reflexivity | lia].
Qed.

Lemma endOffset_at_end w env s :
  start (rb w) <= s -> s = end_ (rb w) ->
  endOffset w env s = w' ← Wait w env; Returns (w', (end_ (rb w'), None)).
Proof.
  intros H1 H2. unfold endOffset.
  destruct (Z.ltb_spec s (start (rb w))); [lia |].
  destruct (Z.ltb_spec s (end_ (rb w))); [lia |].
  destruct (Z.eqb_spec s (end_ (rb w))); [reflexivity | lia].
Qed.

Lemma endOffset_after w env s :
  start (rb w) <= s -> end_ (rb w) < s ->
  endOffset w env s = Returns (w, (-1, Some ErrAfterBuffer)).
Proof.
  intros H1 H2. unfold endOffset.
  destruct (Z.ltb_spec s (start (rb w))); [lia |].
  destruct (Z.ltb_spec s (end_ (rb w))); [lia |].
  destruct (Z.eqb_spec s (end_ (rb w))); [lia | reflexivity].
Qed.

(** C2, as the code has it: a start below the window start comes back
    unchanged, with ErrBeforeBuffer (carrying the window start) and no
    items. *)
Theorem Read_before_buffer w env s :
  s < start (rb w) ->
  Read w env s =
    Returns (s, [], Some (ErrBeforeBuffer s (start (rb w)) (wrap64 (start (rb w) - s)))).
Proof.
  intros H. unfold Read. rewrite endOffset_before by exact H. reflexivity.
Qed.

(** C10: a context cancelled before the call wins over the items that are
    there: for a start inside the window, Read returns the start it was
    given, the context's error and no items. *)
Theorem Read_cancelled_takes_precedence e b env s :
  start b <= s < end_ b ->
  Read (cancelled e b) env s = Returns (s, [], Some (CtxErr e)).
Proof.
  intros H. unfold Read. rewrite endOffset_within by exact H. reflexivity.
Qed.

End ReadNow.

(** ** Write and Reset keep the buffer well typed *)

Section Typing.

Implicit Types (b : RingBuffer) (o : Op) (ops : list Op).

Lemma NewRingBuffer_returns n s0 :
  0 <= n ->
  NewRingBuffer n s0 = Returns (fresh n s0).
Proof.
  intros H. unfold NewRingBuffer. destruct (Z.ltb_spec n 0); [lia | reflexivity].
Qed.

Lemma NewRingBuffer_inv n s0 b :
  NewRingBuffer n s0 = Returns b ->
  0 <= n /\ b = fresh n s0.
Proof.
  unfold NewRingBuffer. destruct (Z.ltb_spec n 0); [discriminate |].
  intros [= <-]. split; [lia | reflexivity].
Qed.

Lemma NewRingBuffer_typed n s0 b :
  n <= max_int64 -> int64 s0 ->
  NewRingBuffer n s0 = Returns b -> typed b.
Proof.
  intros Hn Hs H. apply NewRingBuffer_inv in H as [H0 ->].
  split; simpl; try assumption; [lia |].
  rewrite length_replicate. lia.
Qed.

(** What a Write that returns has done. *)
Lemma Write_inv b it b' :
  Write b it = Returns b' ->
  size b <> 0 /\
  0 <= Z.rem (end_ b) (size b) < Z.of_nat (length (buffer b)) /\
  b' = {| buffer := <[Z.to_nat (Z.rem (end_ b) (size b)) := Some it]> (buffer b);
          size := size b;
          start := if wrap64 (end_ b - start b) =? size b
                   then wrap64 (start b + 1) else start b;
          end_ := wrap64 (end_ b + 1) |}.
Proof.
  unfold Write. destruct (Z.eqb_spec (size b) 0); [discriminate |].
  destruct (Z.ltb_spec (Z.rem (end_ b) (size b)) 0); [discriminate |].
  destruct (Z.leb_spec (Z.of_nat (length (buffer b))) (Z.rem (end_ b) (size b)));
    [discriminate |].
  simpl. intros [= <-]. repeat split; lia || assumption.
Qed.

(** A Write returns as soon as the slot of [end] exists. *)
Lemma Write_returns b it :
  Z.of_nat (length (buffer b)) = size b ->
  0 < size b ->
  0 <= Z.rem (end_ b) (size b) ->
  Write b it =
    Returns {| buffer := <[Z.to_nat (Z.rem (end_ b) (size b)) := Some it]> (buffer b);
               size := size b;
               start := if wrap64 (end_ b - start b) =? size b
                        then wrap64 (start b + 1) else start b;
               end_ := wrap64 (end_ b + 1) |}.
Proof.
  intros Hlen Hpos Hrem. unfold Write.
  destruct (Z.eqb_spec (size b) 0); [lia |].
  destruct (Z.ltb_spec (Z.rem (end_ b) (size b)) 0); [lia |].
  destruct (Z.leb_spec (Z.of_nat (length (buffer b))) (Z.rem (end_ b) (size b))) as [Hle|];
    [| reflexivity].
  exfalso. pose proof (Z.rem_bound_abs (end_ b) (size b)). lia.
Qed.

Lemma apply_typed o b b' :
  typed b -> typed_op o -> apply o b = Returns b' -> typed b' /\ size b' = size b.
Proof.
  intros [Hs Hl Ha He] Ho. destruct o as [it | s]; simpl.
  - intros H. apply Write_inv in H as (_ & _ & ->). simpl. split; [| reflexivity].
    split; simpl; try assumption.
    + rewrite length_insert. exact Hl.
    + destruct (_ =? _); [apply wrap64_int64 | assumption].
    + apply wrap64_int64.
  - intros [= <-]. simpl. split; [| reflexivity]. split; simpl; assumption.
Qed.

Lemma run_typed ops : forall b b',
  typed b -> Forall typed_op ops -> run ops b = Returns b' ->
  typed b' /\ size b' = size b.
Proof.
  induction ops as [| o ops IH]; simpl; intros b b' Hb Hops H.
  - injection H as <-. split; [assumption | reflexivity].
  - inversion Hops as [| ? ? Ho Hops']; subst.
    destruct (apply o b) as [b1 |] eqn:E; simpl in H; [| discriminate].
    destruct (apply_typed _ _ _ Hb Ho E) as [Hb1 Hsz].
    destruct (IH _ _ Hb1 Hops' H) as [Hb' Hsz']. split; [assumption | congruence].
Qed.

Lemma run_app ops1 ops2 b :
  run (ops1 ++ ops2) b = b1 ← run ops1 b; run ops2 b1.
Proof.
  revert b. induction ops1 as [| o ops1 IH]; simpl; intros b; [reflexivity |].
  destruct (apply o b) as [b1 |]; simpl; [apply IH | reflexivity].
Qed.

End Typing.

(** ** The window invariant *)

Section Window.

Implicit Types (b : RingBuffer) (o : Op) (ops : list Op).

Lemma Reset_window b s : 0 <= size b -> window_ok (Reset b s).
Proof. intros H. unfold window_ok. simpl. lia. Qed.

Lemma Write_window b it b' :
  typed b -> window_ok b -> end_ b < max_int64 ->
  Write b it = Returns b' -> window_ok b'.
Proof.
  intros [Hs Hl Ha He] [H1 H2] Hmax H.
  apply Write_inv in H as (Hnz & _ & ->).
  unfold window_ok. simpl.
  unfold int64 in *.
  rewrite (wrap64_id (end_ b - start b)) by (unfold int64, min_int64, max_int64 in *; lia).
  rewrite (wrap64_succ (end_ b)) by lia.
  destruct (Z.eqb_spec (end_ b - start b) (size b)) as [E | E].
  - rewrite wrap64_succ by lia. lia.
  - lia.
Qed.

Lemma run_window ops : forall b b',
  typed b -> window_ok b -> Forall typed_op ops -> no_wrap ops b ->
  run ops b = Returns b' -> window_ok b'.
Proof.
  induction ops as [| o ops IH]; simpl; intros b b' Hb Hw Hops Hnw H.
  - injection H as <-. assumption.
  - inversion Hops as [| ? ? Ho Hops']; subst.
    destruct Hnw as [Hmax Hnw].
    destruct (apply o b) as [b1 |] eqn:E; simpl in H; [| discriminate].
    destruct (apply_typed _ _ _ Hb Ho E) as [Hb1 _].
    apply (IH b1 b'); try assumption.
    destruct o as [it | s]; simpl in E.
    + simpl in Hmax. apply (Write_window b it b1); assumption.
    + injection E as <-. apply Reset_window. destruct Hb. lia.
Qed.

(** The operations before any point of a run without wrap-around are a
    run without wrap-around. *)
Lemma no_wrap_prefix ops1 : forall ops2 b,
  no_wrap (ops1 ++ ops2) b -> no_wrap ops1 b.
Proof.
  induction ops1 as [| o ops1 IH]; simpl; intros ops2 b H; [exact I |].
  destruct H as [H1 H2]. split; [exact H1 |].
  destruct (apply o b) as [b1 |]; [| exact I]. apply (IH ops2). exact H2.
Qed.

(** C7, as the code has it: from NewRingBuffer, after every sequence of
    Writes and Resets in which no [rb.end++] wrapped around int64 (hence
    after each operation of such a sequence), the window satisfies
    [start <= end] and [end - start <= N]. *)
Theorem window_invariant n s0 b0 ops b :
  n <= max_int64 -> int64 s0 -> Forall typed_op ops ->
  NewRingBuffer n s0 = Returns b0 ->
  no_wrap ops b0 ->
  run ops b0 = Returns b ->
  start b <= end_ b /\ end_ b - start b <= n.
Proof.
  intros Hn Hs Hops Hnew Hnw Hrun.
  pose proof (NewRingBuffer_typed _ _ _ Hn Hs Hnew) as Hb0.
  destruct (run_typed _ _ _ Hb0 Hops Hrun) as [_ Hsz].
  assert (window_ok b) as [H1 H2].
  { eapply run_window; try eassumption.
    apply NewRingBuffer_inv in Hnew as [H0 ->]. unfold window_ok. simpl. lia. }
  apply NewRingBuffer_inv in Hnew as [H0 ->]. simpl in Hsz. lia.
Qed.

End Window.

(** ** The buffer holds what was written in its window *)

Section Consistency.

Implicit Types (b : RingBuffer) (h : History) (o : Op) (ops : list Op).

Lemma Reset_consistent b h s : 0 <= size b -> consistent (Reset b s) h.
Proof.
  intros Hs. unfold consistent. simpl.
  replace (s - s) with 0 by lia. change (wrap64 0) with 0.
  split; [lia | intros j Hj; lia].
Qed.

(** The width of the window after a Write, as the code counts it. *)
Lemma Write_width b it b' :
  typed b -> 0 <= wrap64 (end_ b - start b) <= size b ->
  Write b it = Returns b' ->
  wrap64 (end_ b' - start b') =
    if wrap64 (end_ b - start b) =? size b then size b
    else wrap64 (end_ b - start b) + 1.
Proof.
  intros [Hs Hl Ha He] Hw H. apply Write_inv in H as (Hnz & Hidx & ->). simpl.
  destruct (wrap64_cong (end_ b - start b)) as [kw Hkw].
  destruct (wrap64_cong (end_ b + 1)) as [k1 Hk1].
  destruct (wrap64_cong (start b + 1)) as [k2 Hk2].
  destruct (Z.eqb_spec (wrap64 (end_ b - start b)) (size b)) as [E | E].
  - apply (wrap64_unique _ _ (kw - k1 + k2)); [| lia].
    unfold int64, min_int64, max_int64 in *. lia.
  - apply (wrap64_unique _ _ (kw - k1)); [| lia].
    unfold int64, min_int64, max_int64 in *. lia.
Qed.

Lemma Write_consistent b it b' h :
  typed b -> consistent b h -> Write b it = Returns b' ->
  consistent b' (record (OpWrite it) b h).
Proof.
  intros Hb [Hw Hin] H.
  pose proof (Write_width _ _ _ Hb Hw H) as Hw'.
  destruct Hb as [Hs Hl Ha He].
  apply Write_inv in H as (Hnz & Hidx & ->).
  unfold consistent. rewrite Hw'. clear Hw'. simpl.
  set (w := wrap64 (end_ b - start b)) in *.
  assert (Hend : wrap64 (start b + w) = end_ b).
  { destruct (wrap64_cong (end_ b - start b)) as [kw Hkw]. fold w in Hkw.
    apply (wrap64_unique _ _ (- kw)); [assumption | lia]. }
  split; [destruct (Z.eqb_spec w (size b)); lia |].
  intros j Hj.
  set (k := j + if w =? size b then 1 else 0).
  assert (Hoff : wrap64 ((if w =? size b then wrap64 (start b + 1) else start b) + j)
                 = wrap64 (start b + k)).
  { subst k. destruct (w =? size b).
    - rewrite wrap64_add_l. f_equal. lia.
    - f_equal. lia. }
  rewrite Hoff. clear Hoff.
  assert (Hk : 0 <= k <= w /\ (k = 0 -> w < size b)).
  { subst k. destruct (Z.eqb_spec w (size b)); lia. }
  clearbody k. clear Hj j.
  destruct (Z.eq_dec k w) as [-> | Hne].
  - rewrite Hend. split; simpl; [lia |].
    exists it. rewrite Z.eqb_refl. split; [reflexivity |].
    apply list_lookup_insert_eq. lia.
  - destruct (Hin k) as (Hrem & it0 & Hh & Hbuf); [lia |].
    assert (Hapart : Z.rem (wrap64 (start b + k)) (size b) <> Z.rem (end_ b) (size b)).
    { assert (Hend' : wrap64 (wrap64 (start b + k) + (w - k)) = end_ b).
      { rewrite wrap64_add_l.
        replace (start b + k + (w - k)) with (start b + w) by lia. exact Hend. }
      rewrite <- Hend'.
      apply slots_apart; [lia | apply wrap64_int64 | lia |].
      intros d1 Hd1. rewrite wrap64_add_l.
      destruct (Z.eq_dec (k + d1) w) as [E | E].
      - replace (start b + k + d1) with (start b + w) by lia. rewrite Hend. lia.
      - replace (start b + k + d1) with (start b + (k + d1)) by lia.
        apply Hin. lia. }
    split; simpl; [exact Hrem |].
    exists it0. split.
    + destruct (Z.eqb_spec (wrap64 (start b + k)) (end_ b)) as [E | E]; [| exact Hh].
      exfalso. apply Hapart. rewrite E. reflexivity.
    + rewrite list_lookup_insert_ne; [exact Hbuf |].
      intros E. apply Z2Nat.inj in E; [| lia | lia]. apply Hapart. symmetry. exact E.
Qed.

Lemma run_consistent ops : forall b b' h,
  typed b -> consistent b h -> Forall typed_op ops ->
  run ops b = Returns b' -> consistent b' (written ops b h).
Proof.
  induction ops as [| o ops IH]; simpl; intros b b' h Hb Hc Hops H.
  - injection H as <-. assumption.
  - inversion Hops as [| ? ? Ho Hops']; subst.
    destruct (apply o b) as [b1 |] eqn:E; simpl in H; [| discriminate].
    destruct (apply_typed _ _ _ Hb Ho E) as [Hb1 _].
    apply IH; try assumption.
    destruct o as [it | s]; simpl in E.
    + apply (Write_consistent b it b1 h); assumption.
    + injection E as <-. simpl. apply Reset_consistent. destruct Hb. lia.
Qed.

(** On the window as the integers order it, slot by slot. *)
Lemma consistent_window b h i :
  typed b -> consistent b h -> start b <= i < end_ b -> holds b h i.
Proof.
  intros [Hs Hl Ha He] [Hw Hin] Hi.
  destruct (wrap64_cong (end_ b - start b)) as [kw Hkw].
  assert (Hwid : wrap64 (end_ b - start b) = end_ b - start b).
  { unfold int64, min_int64, max_int64 in *. lia. }
  rewrite Hwid in Hin.
  replace i with (wrap64 (start b + (i - start b))).
  - apply Hin. lia.
  - replace (start b + (i - start b)) with i by lia.
    apply wrap64_id. unfold int64 in *. lia.
Qed.

(** When [start <= end], the window has at most [size] offsets. *)
Lemma consistent_width b h :
  typed b -> consistent b h -> start b <= end_ b -> end_ b - start b <= size b.
Proof.
  intros [Hs Hl Ha He] [Hw _] Hle.
  destruct (wrap64_cong (end_ b - start b)) as [kw Hkw].
  unfold int64, min_int64, max_int64 in *. lia.
Qed.

Lemma reached_consistent n s0 b0 ops b :
  n <= max_int64 -> int64 s0 -> Forall typed_op ops ->
  NewRingBuffer n s0 = Returns b0 -> run ops b0 = Returns b ->
  typed b /\ consistent b (written ops b0 (fun _ => None)).
Proof.
  intros Hn Hs Hops Hnew Hrun.
  pose proof (NewRingBuffer_typed _ _ _ Hn Hs Hnew) as Hb0.
  split; [eapply run_typed; eassumption |].
  apply run_consistent; try assumption.
  apply NewRingBuffer_inv in Hnew as [H0 ->].
  unfold consistent. simpl. replace (s0 - s0) with 0 by lia. change (wrap64 0) with 0.
  split; [lia | intros j Hj; lia].
Qed.

End Consistency.

(** ** The loop of Read *)

Section ReadLoop.

Implicit Types (b : RingBuffer) (items : list (option Item)).

Lemma read_loop_done fuel b e s items :
  e <= s -> read_loop fuel b e s items = Returns (s, items).
Proof.
  intros H. destruct fuel; simpl; destruct (Z.ltb_spec s e); (lia || reflexivity).
Qed.

(** Over offsets whose slots exist the loop collects the slots in
    ascending order of offset and stops at [e]. *)
Lemma read_loop_slots (f : Z -> option Item) fuel : forall b e s items,
  int64 e -> min_int64 <= s ->
  Z.of_nat (length (buffer b)) = size b ->
  (forall i, s <= i < e ->
     0 <= Z.rem i (size b) /\ buffer b !! Z.to_nat (Z.rem i (size b)) = Some (f i)) ->
  (Z.to_nat (e - s) <= fuel)%nat -> s <= e ->
  read_loop fuel b e s items = Returns (e, items ++ map f (seqZ s (e - s))).
Proof.
  induction fuel as [| fuel IH]; intros b e s items He Hs Hlen Hslots Hfuel Hse.
  - assert (s = e) as -> by lia. rewrite read_loop_done by lia.
    rewrite Z.sub_diag. simpl. rewrite app_nil_r. reflexivity.
  - destruct (Z.eq_dec s e) as [-> | Hne].
    { rewrite read_loop_done by lia.
      rewrite Z.sub_diag. simpl. rewrite app_nil_r. reflexivity. }
    simpl. destruct (Z.ltb_spec s e); [| lia].
    destruct (Hslots s) as [Hrem Hget]; [lia |].
    pose proof (lookup_lt_Some _ _ _ Hget) as Hlt.
    destruct (Z.eqb_spec (size b) 0) as [E | E].
    { exfalso. rewrite E in Hlen. clear - Hlen Hlt. destruct (buffer b); simpl in *; lia. }
    destruct (Z.ltb_spec (Z.rem s (size b)) 0); [lia |].
    destruct (Z.leb_spec (Z.of_nat (length (buffer b))) (Z.rem s (size b))); [lia |].
    simpl. rewrite Hget.
    rewrite wrap64_succ by (unfold int64 in *; lia).
    rewrite IH; try assumption; try lia.
    + rewrite (seqZ_cons s) by lia. simpl. rewrite <- app_assoc. simpl.
      replace (Z.succ s) with (s + 1) by lia.
      replace (Z.pred (e - s)) with (e - (s + 1)) by lia. reflexivity.
    + intros i Hi. apply Hslots. lia.
Qed.

(** Whatever the slots hold, the loop only moves forward. *)
Lemma read_loop_next fuel : forall b e s items next items',
  int64 e -> min_int64 <= s ->
  read_loop fuel b e s items = Returns (next, items') ->
  s <= next /\ e <= next.
Proof.
  induction fuel as [| fuel IH]; intros b e s items next items' He Hs; simpl;
    destruct (Z.ltb_spec s e) as [Hlt | Hge].
  - discriminate.
  - intros [= <- _]. lia.
  - destruct (size b =? 0); [discriminate |].
    destruct (_ || _); [discriminate |].
    destruct (buffer b !! _); [| discriminate].
    rewrite wrap64_succ by (unfold int64 in *; lia).
    intros H. apply IH in H; [lia | assumption | lia].
  - intros [= <- _]. lia.
Qed.

End ReadLoop.

(** ** What a woken reader finds *)

Section Woken.

Implicit Types (w : World) (env : list Event).

Lemma apply_end o b b' :
  int64 (end_ b) -> typed_op o -> apply o b = Returns b' -> int64 (end_ b').
Proof.
  intros He Ho. destruct o as [it | s]; simpl.
  - intros H. apply Write_inv in H as (_ & _ & ->). simpl. apply wrap64_int64.
  - intros [= <-]. exact Ho.
Qed.

Lemma occur_all_end env : forall w w',
  int64 (end_ (rb w)) -> Forall typed_event env ->
  occur_all env w = Returns w' -> int64 (end_ (rb w')).
Proof.
  induction env as [| ev env IH]; simpl; intros w w' He Henv H.
  - injection H as <-. exact He.
  - inversion Henv as [| ? ? Hev Henv']; subst.
    destruct (occur ev w) as [w1 |] eqn:E; simpl in H; [| discriminate].
    apply (IH w1 w'); [| assumption | assumption].
    destruct ev as [o | e]; simpl in E.
    + destruct (apply o (rb w)) as [b1 |] eqn:Eo; simpl in E; [| discriminate].
      injection E as <-. simpl. eapply apply_end; eassumption.
    + injection E as <-. exact He.
Qed.

Lemma Wait_end w env w' :
  int64 (end_ (rb w)) -> Forall typed_event env ->
  Wait w env = Returns w' -> int64 (end_ (rb w')).
Proof.
  intros He Henv. unfold Wait. destruct (existsb broadcasts env); [| discriminate].
  apply occur_all_end; assumption.
Qed.

End Woken.

(** ** The loop budget is never what stops Read *)

Section Budget.

Implicit Types (w : World) (env : list Event) (b : RingBuffer).

Lemma read_loop_budget fuel : forall b e s items,
  int64 e -> min_int64 <= s -> (Z.to_nat (e - s) <= fuel)%nat ->
  read_loop fuel b e s items <> Stops OutOfFuel.
Proof.
  induction fuel as [| fuel IH]; intros b e s items He Hs Hfuel; simpl;
    destruct (Z.ltb_spec s e) as [Hlt | Hge]; try discriminate; [lia |].
  destruct (size b =? 0); [discriminate |].
  destruct (_ || _); [discriminate |].
  destruct (buffer b !! _); [| discriminate].
  rewrite wrap64_succ by (unfold int64 in *; lia).
  apply IH; [assumption | lia | lia].
Qed.

Lemma read_loop_stops fuel : forall b e s items stop,
  read_loop fuel b e s items = Stops stop ->
  (exists p, stop = Panicked p) \/ stop = OutOfFuel.
Proof.
  induction fuel as [| fuel IH]; intros b e s items stop; simpl;
    destruct (s <? e); try discriminate.
  - intros [= <-]. right. reflexivity.
  - destruct (size b =? 0); [intros [= <-]; left; eauto |].
    destruct (_ || _); [intros [= <-]; left; eauto |].
    destruct (buffer b !! _); [apply IH | intros [= <-]; left; eauto].
Qed.

Lemma apply_stops o b stop :
  apply o b = Stops stop -> exists p, stop = Panicked p.
Proof.
  destruct o as [it | s]; simpl; [| discriminate].
  unfold Write. destruct (size b =? 0); [intros [= <-]; eauto |].
  destruct (_ || _); [intros [= <-]; eauto | discriminate].
Qed.

Lemma occur_all_stops env : forall w stop,
  occur_all env w = Stops stop -> exists p, stop = Panicked p.
Proof.
  induction env as [| ev env IH]; simpl; intros w stop H; [discriminate |].
  destruct (occur ev w) as [w1 | stop1] eqn:E; simpl in H.
  - apply (IH w1). exact H.
  - injection H as <-. destruct ev as [o | e]; simpl in E; [| discriminate].
    destruct (apply o (rb w)) as [b1 | stop2] eqn:Eo; simpl in E; [discriminate |].
    injection E as <-. apply (apply_stops o (rb w)). exact Eo.
Qed.

(** Read either returns, waits for ever, or panics. *)
Lemma Read_stops w env s stop :
  int64 s -> int64 (end_ (rb w)) -> Forall typed_event env ->
  Read w env s = Stops stop ->
  stop = Blocked \/ exists p, stop = Panicked p.
Proof.
  intros Hs He Henv. unfold Read.
  destruct (endOffset w env s) as [[w' [e err]] | stop1] eqn:E; simpl.
  - destruct err as [err |]; [discriminate |].
    assert (He' : int64 e).
    { revert E. unfold endOffset.
      destruct (s <? start (rb w)); [discriminate |].
      destruct (s <? end_ (rb w)); [intros [= <- <-]; exact He |].
      destruct (s =? end_ (rb w)); [| discriminate].
      destruct (Wait w env) as [w1 |] eqn:Ew; simpl; [| discriminate].
      intros [= <- <-]. eapply Wait_end; eassumption. }
    destruct (ctx_Err w'); [discriminate |].
    destruct (wrap64 (e - s) <? 0); [intros [= <-]; right; eauto |].
    destruct (read_loop _ _ _ _ _) as [[next items] | stop2] eqn:El; simpl; [discriminate |].
    intros [= <-]. right.
    destruct (read_loop_stops _ _ _ _ _ _ El) as [Hp | ->]; [exact Hp |].
    exfalso. revert El. apply read_loop_budget; [exact He' | | lia].
    unfold int64 in Hs. lia.
  - intros [= <-]. revert E. unfold endOffset.
    destruct (s <? start (rb w)); [discriminate |].
    destruct (s <? end_ (rb w)); [discriminate |].
    destruct (s =? end_ (rb w)); [| discriminate].
    unfold Wait. destruct (existsb broadcasts env).
    + destruct (occur_all env w) as [w1 | stop2] eqn:Eo; simpl; [discriminate |].
      intros [= <-]. right. apply (occur_all_stops env w). exact Eo.
    + simpl. intros [= <-]. left. reflexivity.
Qed.

End Budget.

(** ** Read on a buffer reached from NewRingBuffer *)

Section ReadReached.

Implicit Types (w : World) (env : list Event) (b : RingBuffer) (ops : list Op).

(** With a live context and a start inside the window of a consistent
    buffer, Read returns at once what the history has at the offsets from
    the start to the window end. *)
Lemma Read_within_consistent b h env s :
  typed b -> consistent b h -> start b <= s < end_ b ->
  Read (live b) env s = Returns (end_ b, map h (seqZ s (end_ b - s)), None).
Proof.
  intros Hb Hc Hs.
  assert (Hwin : forall i, s <= i < end_ b -> holds b h i).
  { intros i Hi. apply consistent_window; [assumption | assumption | lia]. }
  assert (Hwid : end_ b - start b <= size b).
  { apply (consistent_width b h); [assumption | assumption | lia]. }
  destruct Hb as [Hsz Hlen Ha He].
  unfold Read. rewrite endOffset_within by exact Hs. simpl.
  rewrite wrap64_id by (unfold int64, min_int64, max_int64 in *; lia).
  destruct (Z.ltb_spec (end_ b - s) 0); [lia |].
  rewrite (read_loop_slots h).
  - reflexivity.
  - exact He.
  - unfold int64 in Ha. lia.
  - exact Hlen.
  - intros i Hi. destruct (Hwin i Hi) as (Hrem & it & Hh & Hbuf).
    split; [exact Hrem |]. rewrite Hh. exact Hbuf.
  - lia.
  - lia.
Qed.

(** C6, as the code has it: on a buffer reached from NewRingBuffer by Writes
    and Resets, with a live context and a start inside the window
    (A <= start < B), Read does not wait, whatever the other goroutines
    do next, and returns B, no error and exactly the items written at the
    offsets start, ..., B - 1, in ascending order of offset; each of
    them is an item that was written, never nil. *)
Theorem Read_available n s0 b0 ops b env s :
  n <= max_int64 -> int64 s0 -> Forall typed_op ops ->
  NewRingBuffer n s0 = Returns b0 -> run ops b0 = Returns b ->
  start b <= s < end_ b ->
  Read (live b) env s =
    Returns (end_ b, map (written ops b0 (fun _ => None)) (seqZ s (end_ b - s)), None)
  /\ forall i, s <= i < end_ b -> is_Some (written ops b0 (fun _ => None) i).
Proof.
  intros Hn Hs0 Hops Hnew Hrun Hs.
  destruct (reached_consistent _ _ _ _ _ Hn Hs0 Hops Hnew Hrun) as [Hb Hc].
  split.
  - apply Read_within_consistent; assumption.
  - intros i Hi.
    destruct (consistent_window b _ i Hb Hc) as (_ & it & Hh & _); [lia |].
    exists it. exact Hh.
Qed.

(** C8: when Read returns without error, the offset it returns is not
    below the start it was given, with or without a wait, whatever the
    window became during the wait. *)
Theorem Read_next_ge_start w env s next items :
  int64 s -> int64 (end_ (rb w)) -> Forall typed_event env ->
  Read w env s = Returns (next, items, None) ->
  s <= next.
Proof.
  intros Hs He Henv. unfold Read.
  destruct (endOffset w env s) as [[w' [e err]] |] eqn:E; simpl; [| discriminate].
  destruct err as [err |]; [discriminate |].
  assert (He' : int64 e).
  { revert E. unfold endOffset.
    destruct (s <? start (rb w)); [discriminate |].
    destruct (s <? end_ (rb w)); [intros [= <- <-]; exact He |].
    destruct (s =? end_ (rb w)); [| discriminate].
    destruct (Wait w env) as [w1 |] eqn:Ew; simpl; [| discriminate].
    intros [= <- <-]. eapply Wait_end; eassumption. }
  destruct (ctx_Err w'); [discriminate |].
  destruct (wrap64 (e - s) <? 0); [discriminate |].
  destruct (read_loop _ _ _ _ _) as [[next' items'] |] eqn:El; simpl; [| discriminate].
  intros [= <- _]. apply read_loop_next in El; [lia | assumption |].
  unfold int64 in Hs. lia.
Qed.

End ReadReached.

(** ** WriteItems *)

Section Sequencer.

Import pgnotifier.

Implicit Types (st : Sequencer) (b : RingBuffer) (it : Item).

Lemma loop_quiet k waits st :
  loop (replicate k GotNothing ++ waits) st = loop waits st.
Proof.
  induction k as [| k IH]; simpl; [reflexivity | exact IH].
Qed.

(** The calls the first item leads to, whether or not they return. *)
Lemma first_item_calls k it b :
  calls (WriteItems (replicate k GotNothing ++ [GotItem it]) b).1 =
    if Id it =? 0 then [OpWrite it] else [OpReset (Id it); OpWrite it].
Proof.
  unfold WriteItems. rewrite loop_quiet. simpl.
  unfold mbind, M_bind, iteration, get_lastId, rb_call, set_lastId. simpl.
  change (wrap64 (-1 + 1)) with 0.
  destruct (Id it =? 0); simpl.
  - destruct (Write b it); reflexivity.
  - destruct (Write (Reset b (Id it)) it); reflexivity.
Qed.

(** C4, as the code has it: [lastId] starts at -1, so a first item whose id
    is not 0 is a gap: Reset(id), then Write(item), then [lastId = id]. The
    Write returns when the buffer has a slot for the id. *)
Theorem first_item_gap_resets k it b :
  Id it <> 0 ->
  Z.of_nat (length (buffer b)) = size b -> 0 < size b ->
  0 <= Z.rem (Id it) (size b) ->
  WriteItems (replicate k GotNothing ++ [GotItem it]) b =
    ({| lastId := Id it;
        rb := {| buffer := <[Z.to_nat (Z.rem (Id it) (size b)) := Some it]> (buffer b);
                 size := size b;
                 start := Id it;
                 end_ := wrap64 (Id it + 1) |};
        calls := [OpReset (Id it); OpWrite it] |},
     Returns tt).
Proof.
  intros Hid Hlen Hsz Hrem.
  unfold WriteItems. rewrite loop_quiet. simpl.
  unfold mbind, M_bind, iteration, get_lastId, rb_call, set_lastId. simpl.
  change (wrap64 (-1 + 1)) with 0.
  destruct (Z.eqb_spec (Id it) 0) as [E | _]; [contradiction |]. simpl.
  rewrite Write_returns by assumption. simpl.
  rewrite Z.sub_diag. change (wrap64 0) with 0.
  destruct (Z.eqb_spec 0 (size b)); [lia | reflexivity].
Qed.

Lemma loop_cons r waits st :
  loop (r :: waits) st =
    match iteration r st with
    | (st', Returns _) => loop waits st'
    | (st', Stops stop) => (st', Stops stop)
    end.
Proof. reflexivity. Qed.

(** A turn of the loop whose calls return. *)
Lemma iteration_item_returns it st b' :
  run (decided (lastId st) it) (rb st) = Returns b' ->
  iteration (GotItem it) st =
    ({| lastId := Id it; rb := b'; calls := calls st ++ decided (lastId st) it |},
     Returns tt).
Proof.
  unfold iteration, decided, mbind, M_bind, get_lastId, rb_call, set_lastId. simpl.
  destruct (Id it =? wrap64 (lastId st + 1)); simpl.
  - destruct (Write (rb st) it) as [b1 |]; simpl; [| discriminate].
    intros [= <-]. reflexivity.
  - destruct (Write (Reset (rb st) (Id it)) it) as [b1 |]; simpl; [| discriminate].
    intros [= <-]. rewrite <- app_assoc. reflexivity.
Qed.

(** The calls decided on return when the id is not negative. *)
Lemma decided_returns last it b :
  Z.of_nat (length (buffer b)) = size b -> 0 < size b ->
  end_ b = wrap64 (last + 1) -> 0 <= Id it ->
  exists b', run (decided last it) b = Returns b' /\
             Z.of_nat (length (buffer b')) = size b' /\ size b' = size b /\
             end_ b' = wrap64 (Id it + 1).
Proof.
  intros Hlen Hsz Hend Hid. unfold decided.
  destruct (Z.eqb_spec (Id it) (wrap64 (last + 1))) as [E | E]; simpl.
  - rewrite Write_returns; [| assumption | assumption |].
    + eexists. split; [reflexivity |]. simpl. rewrite length_insert, Hend, <- E.
      repeat split. exact Hlen.
    + rewrite Hend, <- E. apply Z.rem_nonneg; lia.
  - rewrite Write_returns; simpl; [| assumption | assumption |].
    + eexists. split; [reflexivity |]. simpl. rewrite length_insert.
      repeat split. exact Hlen.
    + apply Z.rem_nonneg; lia.
Qed.

(** With ids that are not negative and a buffer of positive capacity
    whose end is the id expected next, every call returns, the loop goes
    on, and the calls made are the planned ones. *)
Lemma loop_returns waits : forall st,
  Forall feedable waits ->
  Z.of_nat (length (buffer (rb st))) = size (rb st) -> 0 < size (rb st) ->
  end_ (rb st) = wrap64 (lastId st + 1) ->
  exists st', loop waits st = (st', Returns tt) /\
              calls st' = calls st ++ plan (lastId st) waits.
Proof.
  induction waits as [| r waits IH]; intros st Hw Hlen Hsz Hend.
  - exists st. simpl. rewrite app_nil_r. split; reflexivity.
  - inversion Hw as [| ? ? Hr Hw']; subst. rewrite loop_cons.
    destruct r as [it | |]; simpl in Hr; [| | contradiction].
    + destruct (decided_returns (lastId st) it (rb st) Hlen Hsz Hend Hr)
        as (b' & Hrun & Hlen' & Hsz' & Hend').
      rewrite (iteration_item_returns it st b' Hrun).
      destruct (IH {| lastId := Id it; rb := b';
                      calls := calls st ++ decided (lastId st) it |})
        as (st' & Hloop & Hcalls); simpl; try assumption; [lia |].
      exists st'. split; [exact Hloop |]. rewrite Hcalls. simpl.
      rewrite <- app_assoc. reflexivity.
    + simpl. apply IH; assumption.
Qed.

(** C9: on a buffer created at offset 0 with any positive capacity (that of
    [main] is 10) the ids 0,1,2,4,5 lead to the calls Write 0, Write 1,
    Write 2, Reset 4, Write 4, Write 5: one Reset, at id 4, every call
    returning and the loop going on; the ids 0,1,2,3 lead to four Writes
    and no Reset. *)
Theorem Sequencer_gap_resets_once n :
  0 < n ->
  NewRingBuffer n 0 = Returns (fresh n 0) /\
  (WriteItems (got [0; 1; 2; 4; 5]) (fresh n 0)).2 = Returns tt /\
  calls (WriteItems (got [0; 1; 2; 4; 5]) (fresh n 0)).1 =
    writes [0; 1; 2] ++ [OpReset 4] ++ writes [4; 5] /\
  resets (calls (WriteItems (got [0; 1; 2; 4; 5]) (fresh n 0)).1) = [4] /\
  (WriteItems (got [0; 1; 2; 3]) (fresh n 0)).2 = Returns tt /\
  calls (WriteItems (got [0; 1; 2; 3]) (fresh n 0)).1 = writes [0; 1; 2; 3] /\
  resets (calls (WriteItems (got [0; 1; 2; 3]) (fresh n 0)).1) = [].
Proof.
  intros Hn.
  assert (Hfed : forall ids, Forall (fun id => 0 <= id) ids ->
            exists st, WriteItems (got ids) (fresh n 0) = (st, Returns tt) /\
                       calls st = plan (-1) (got ids)).
  { intros ids Hids. unfold WriteItems.
    destruct (loop_returns (got ids) {| lastId := -1; rb := fresh n 0; calls := [] |})
      as (st & Hloop & Hcalls); simpl.
    - unfold got. apply Forall_fmap. exact Hids.
    - rewrite length_replicate. lia.
    - exact Hn.
    - reflexivity.
    - exists st. split; assumption. }
  destruct (Hfed [0; 1; 2; 4; 5]) as (st1 & E1 & C1); [repeat constructor; lia |].
  destruct (Hfed [0; 1; 2; 3]) as (st2 & E2 & C2); [repeat constructor; lia |].
  rewrite E1, E2. simpl. rewrite C1, C2.
  split; [apply NewRingBuffer_returns; lia |].
  repeat split; reflexivity.
Qed.

(** *** Items sit at the offset of their id *)

Lemma written_app ops1 : forall ops2 b b1 h,
  run ops1 b = Returns b1 ->
  written (ops1 ++ ops2) b h = written ops2 b1 (written ops1 b h).
Proof.
  induction ops1 as [| o ops1 IH]; simpl; intros ops2 b b1 h H.
  - injection H as <-. reflexivity.
  - destruct (apply o b) as [b' |]; simpl in H; [| discriminate].
    apply IH. exact H.
Qed.

(** A turn of the loop that goes on has made the calls decided on. *)
Lemma iteration_item_inv it st st' :
  iteration (GotItem it) st = (st', Returns tt) ->
  exists b', run (decided (lastId st) it) (rb st) = Returns b' /\
             st' = {| lastId := Id it; rb := b';
                      calls := calls st ++ decided (lastId st) it |}.
Proof.
  unfold iteration, decided, mbind, M_bind, get_lastId, rb_call, set_lastId. simpl.
  destruct (Id it =? wrap64 (lastId st + 1)); simpl.
  - destruct (Write (rb st) it) as [b' |] eqn:E; simpl; [| discriminate].
    intros [= <-]. exists b'. split; reflexivity.
  - destruct (Write (Reset (rb st) (Id it)) it) as [b' |] eqn:E; simpl; [| discriminate].
    intros [= <-]. exists b'. rewrite <- app_assoc. split; reflexivity.
Qed.

Lemma decided_writes_at_id last it b b' h :
  end_ b = wrap64 (last + 1) ->
  run (decided last it) b = Returns b' ->
  end_ b' = wrap64 (Id it + 1) /\
  written (decided last it) b h = fun i => if i =? Id it then Some it else h i.
Proof.
  intros Hend. unfold decided.
  destruct (Z.eqb_spec (Id it) (wrap64 (last + 1))) as [E | E]; simpl.
  - destruct (Write b it) as [b1 |] eqn:Ew; simpl; [| discriminate].
    intros [= <-]. apply Write_inv in Ew as (_ & _ & ->). simpl.
    rewrite Hend, <- E. split; reflexivity.
  - destruct (Write (Reset b (Id it)) it) as [b1 |] eqn:Ew; simpl; [| discriminate].
    intros [= <-]. apply Write_inv in Ew as (_ & _ & ->). simpl.
    split; reflexivity.
Qed.

Lemma iteration_in_step b0 r st st' :
  typed_wait r -> in_step b0 st ->
  iteration r st = (st', Returns tt) -> in_step b0 st'.
Proof.
  intros Hr (Hrun & Hty & Hend & Hids) H.
  destruct r as [it | |]; simpl in H.
  - apply iteration_item_inv in H as (b' & Hdec & ->).
    destruct (decided_writes_at_id _ _ _ _ (written (calls st) b0 (fun _ => None))
                Hend Hdec) as [Hend' Hw].
    unfold in_step. simpl. repeat split.
    + rewrite run_app, Hrun. exact Hdec.
    + apply Forall_app_2; [exact Hty |].
      unfold decided. destruct (_ =? _).
      * constructor; [exact I | constructor].
      * constructor; [exact Hr |]. constructor; [exact I | constructor].
    + exact Hend'.
    + intros i it'. rewrite (written_app _ _ _ _ _ Hrun), Hw.
      destruct (Z.eqb_spec i (Id it)) as [-> | _]; [intros [= <-]; reflexivity |].
      apply Hids.
  - injection H as <-. repeat split; assumption.
  - discriminate.
Qed.

Lemma loop_in_step b0 waits : forall st st',
  Forall typed_wait waits -> in_step b0 st ->
  loop waits st = (st', Returns tt) -> in_step b0 st'.
Proof.
  induction waits as [| r waits IH]; simpl; intros st st' Hw Hst H.
  - injection H as <-. exact Hst.
  - inversion Hw as [| ? ? Hr Hw']; subst.
    unfold mbind, M_bind in H.
    destruct (iteration r st) as [st1 [[] | stop]] eqn:E; [| discriminate].
    apply (IH st1 st'); [assumption | | assumption].
    apply (iteration_in_step b0 r st st1); assumption.
Qed.

(** X13: Read behind WriteItems: on a buffer created at offset 0 and fed only by
    WriteItems, a Read inside the window returns the items whose ids are
    the offsets from the start to the window end, in ascending order. *)
Lemma Read_after_WriteItems n waits st env s :
  0 <= n <= max_int64 -> Forall typed_wait waits ->
  WriteItems waits (fresh n 0) = (st, Returns tt) ->
  start (rb st) <= s < end_ (rb st) ->
  Read (live (rb st)) env s =
    Returns (end_ (rb st), map (fun i => Some (item i)) (seqZ s (end_ (rb st) - s)), None).
Proof.
  intros Hn Hw H Hs.
  assert (Hst : in_step (fresh n 0) st).
  { apply (loop_in_step (fresh n 0) waits
             {| lastId := -1; rb := fresh n 0; calls := [] |} st Hw); [| exact H].
    unfold in_step. simpl. repeat split; [constructor | discriminate]. }
  destruct Hst as (Hrun & Hty & _ & Hids).
  destruct (reached_consistent n 0 (fresh n 0) (calls st) (rb st)) as [Hb Hc];
    [lia | split; evaluated | exact Hty | apply NewRingBuffer_returns; lia | exact Hrun |].
  rewrite (Read_within_consistent _ _ _ _ Hb Hc Hs). do 3 f_equal.
  apply map_ext_in. intros i Hi.
  apply list_elem_of_In, elem_of_seqZ in Hi.
  destruct (consistent_window _ _ i Hb Hc) as (_ & it & Hh & _); [lia |].
  rewrite Hh. apply Hids in Hh. destruct it as [id]. simpl in Hh. subst id. reflexivity.
Qed.

End Sequencer.

(** ** Read after a wait *)

Section ReadWoken.

Implicit Types (w : World) (env : list Event).

(** After a wait, [endOffset] hands back the new end and no error: the
    only error a woken Read can return is the one of its context. *)
Lemma Read_woken_error_is_ctx w env s next items err :
  start (rb w) <= s -> s = end_ (rb w) ->
  Read w env s = Returns (next, items, Some err) ->
  exists e, err = CtxErr e.
Proof.
  intros H1 H2. unfold Read. rewrite endOffset_at_end by assumption.
  destruct (Wait w env) as [w' |]; simpl; [| discriminate].
  destruct (ctx_Err w') as [e |].
  - intros [= _ _ <-]. exists e. reflexivity.
  - destruct (_ <? 0); [discriminate |].
    destruct (read_loop _ _ _ _ _) as [[n i] |]; simpl; discriminate.
Qed.

(** C1, where the code departs from it: capacity 10, offset 0. Read(0)
    finds the empty window at 0 and waits; Reset(5) and Write(item 5) leave
    the window from 5 to 6 (exclusive), so the start 0 is now behind it. Read returns 6
    and no error, with six entries of which five are nil. *)
Theorem Read_woken_behind_window :
  NewRingBuffer 10 0 = Returns (fresh 10 0) /\
  Read (live (fresh 10 0)) [] 0 = Blocks /\
  (exists w', Wait (live (fresh 10 0)) [Mutate (OpReset 5); Mutate (OpWrite (item 5))]
                = Returns w' /\ start (rb w') = 5 /\ end_ (rb w') = 6) /\
  Read (live (fresh 10 0)) [Mutate (OpReset 5); Mutate (OpWrite (item 5))] 0 =
    Returns (6, [None; None; None; None; None; Some (item 5)], None).
Proof.
  split; [reflexivity |]. split; [reflexivity |]. split; [| vm_compute; reflexivity].
  eexists. split; [vm_compute; reflexivity |]. split; reflexivity.
Qed.

(** C3, where the code departs from it: capacity 4, offset 0. Read(0)
    waits on the empty window; Reset(2) and Write(item 2) leave the window
    from 2 to 3 (exclusive). Read returns, without error, the slots of the offsets 0, 1
    and 2: the first two were never written and are nil, and neither
    offset is in the window. *)
Theorem Read_woken_returns_nil_slots :
  NewRingBuffer 4 0 = Returns (fresh 4 0) /\
  Read (live (fresh 4 0)) [] 0 = Blocks /\
  (exists w', Wait (live (fresh 4 0)) [Mutate (OpReset 2); Mutate (OpWrite (item 2))]
                = Returns w' /\ start (rb w') = 2 /\ end_ (rb w') = 3 /\
              buffer (rb w') = [None; None; Some (item 2); None]) /\
  Read (live (fresh 4 0)) [Mutate (OpReset 2); Mutate (OpWrite (item 2))] 0 =
    Returns (3, [None; None; Some (item 2)], None).
Proof.
  split; [reflexivity |]. split; [reflexivity |]. split; [| vm_compute; reflexivity].
  eexists. split; [vm_compute; reflexivity |]. repeat split; reflexivity.
Qed.

(** C5, where the code departs from it: capacity 10, offset 0, items 0 to
    4 written, window from 0 to 5 (exclusive). Read(5) waits; Reset(2) and
    Write(item 2) leave the window from 2 to 3 (exclusive), so the start 5 is now beyond its end. Read
    does not return an error: [make] is asked for the capacity 3 - 5 and
    panics. *)
Theorem Read_woken_ahead_panics :
  (b0 ← NewRingBuffer 10 0; run (writes [0; 1; 2; 3; 4]) b0)
    = Returns (filled 10 0 [0; 1; 2; 3; 4]) /\
  start (filled 10 0 [0; 1; 2; 3; 4]) = 0 /\ end_ (filled 10 0 [0; 1; 2; 3; 4]) = 5 /\
  Read (live (filled 10 0 [0; 1; 2; 3; 4])) [] 5 = Blocks /\
  (exists w', Wait (live (filled 10 0 [0; 1; 2; 3; 4]))
                   [Mutate (OpReset 2); Mutate (OpWrite (item 2))]
                = Returns w' /\ start (rb w') = 2 /\ end_ (rb w') = 3) /\
  Read (live (filled 10 0 [0; 1; 2; 3; 4]))
       [Mutate (OpReset 2); Mutate (OpWrite (item 2))] 5 = Panics MakesliceCap.
Proof.
  split; [reflexivity |]. split; [reflexivity |]. split; [reflexivity |].
  split; [reflexivity |]. split; [| vm_compute; reflexivity].
  eexists. split; [vm_compute; reflexivity |]. split; reflexivity.
Qed.

End ReadWoken.

(** ** Where the claims as worded fail, and instances of the theorems *)

Section Instances.

Import pgnotifier.

(** C2 as worded fails: capacity 10, offset 5, Read(0). The offset that
    comes back is the start 0 that was passed, not the window start 5. *)
Lemma Read_before_buffer_keeps_start :
  ~ (forall (w : World) (env : list Event) (s : Z),
       s < start (ringbuffer.rb w) ->
       exists items err,
         Read w env s = Returns (start (ringbuffer.rb w), items, Some err)).
Proof.
  intros H. destruct (H (live (fresh 10 5)) [] 0) as (items & err & E).
  - simpl. lia.
  - vm_compute in E. discriminate E.
Qed.

Lemma Read_before_buffer_witness :
  0 < start (ringbuffer.rb (live (fresh 10 5))) /\
  Read (live (fresh 10 5)) [] 0 = Returns (0, [], Some (ErrBeforeBuffer 0 5 5)).
Proof.
  split; [evaluated |].
  etrans; [apply (Read_before_buffer (live (fresh 10 5)) [] 0); evaluated |].
  evaluated.
Defined.

(** C4 as worded fails: a first item with id 0 is the expected next id
    (-1 + 1) and is written without a Reset. *)
Lemma first_item_zero_written_without_Reset :
  ~ (forall (it : Item) (b : RingBuffer),
       calls (WriteItems [GotItem it] b).1 = [OpReset (Id it); OpWrite it]).
Proof.
  intros H. specialize (H (item 0) (fresh 10 0)).
  vm_compute in H. discriminate H.
Qed.

Lemma first_item_gap_resets_witness :
  Id (item 7) <> 0 /\
  Z.of_nat (length (buffer (fresh 10 0))) = size (fresh 10 0) /\
  0 < size (fresh 10 0) /\
  0 <= Z.rem (Id (item 7)) (size (fresh 10 0)) /\
  WriteItems [GotNothing; GotItem (item 7)] (fresh 10 0) =
    ({| lastId := 7;
        rb := {| buffer := [None; None; None; None; None; None; None;
                            Some (item 7); None; None];
                 size := 10; start := 7; end_ := 8 |};
        calls := [OpReset 7; OpWrite (item 7)] |},
     Returns tt).
Proof.
  assert (H1 : Id (item 7) <> 0) by evaluated.
  assert (H2 : Z.of_nat (length (buffer (fresh 10 0))) = size (fresh 10 0)) by evaluated.
  assert (H3 : 0 < size (fresh 10 0)) by evaluated.
  assert (H4 : 0 <= Z.rem (Id (item 7)) (size (fresh 10 0))) by evaluated.
  do 4 (split; [assumption |]).
  etrans; [exact (first_item_gap_resets 1 (item 7) (fresh 10 0) H1 H2 H3 H4) |].
  evaluated.
Defined.

Lemma Sequencer_gap_resets_once_witness :
  0 < 10 /\
  (WriteItems (got [0; 1; 2; 4; 5]) (fresh 10 0)).2 = Returns tt /\
  resets (calls (WriteItems (got [0; 1; 2; 4; 5]) (fresh 10 0)).1) = [4] /\
  (WriteItems (got [0; 1; 2; 3]) (fresh 10 0)).2 = Returns tt /\
  resets (calls (WriteItems (got [0; 1; 2; 3]) (fresh 10 0)).1) = [].
Proof.
  assert (H1 : 0 < 10) by evaluated.
  split; [assumption |].
  destruct (Sequencer_gap_resets_once 10 H1) as (_ & R1 & _ & R2 & R3 & _ & R4).
  repeat split; assumption.
Defined.

(** C6 as worded fails at the upper bound: with the start equal to the
    window end, Read waits; if nothing is ever written it never returns. *)
Lemma Read_at_window_end_waits :
  ~ (forall (n s0 : Z) (ops : list Op) (b0 b : RingBuffer) (env : list Event) (s : Z),
       NewRingBuffer n s0 = Returns b0 -> run ops b0 = Returns b ->
       start b <= s <= end_ b ->
       exists items, Read (live b) env s = Returns (end_ b, items, None)).
Proof.
  intros H.
  destruct (H 10 0 [] (fresh 10 0) (fresh 10 0) [] 0) as (items & E).
  - reflexivity.
  - reflexivity.
  - simpl. lia.
  - vm_compute in E. discriminate E.
Qed.

Lemma Read_available_witness :
  10 <= max_int64 /\ int64 0 /\ Forall typed_op (writes (seqZ 0 11)) /\
  NewRingBuffer 10 0 = Returns (fresh 10 0) /\
  run (writes (seqZ 0 11)) (fresh 10 0) = Returns (filled 10 0 (seqZ 0 11)) /\
  start (filled 10 0 (seqZ 0 11)) <= 3 < end_ (filled 10 0 (seqZ 0 11)) /\
  Read (live (filled 10 0 (seqZ 0 11))) [] 3 =
    Returns (11, map (fun i => Some (item i)) [3; 4; 5; 6; 7; 8; 9; 10], None).
Proof.
  assert (H1 : 10 <= max_int64) by evaluated.
  assert (H2 : int64 0) by (split; evaluated).
  assert (H3 : Forall typed_op (writes (seqZ 0 11))) by (repeat constructor).
  assert (H4 : NewRingBuffer 10 0 = Returns (fresh 10 0)) by evaluated.
  assert (H5 : run (writes (seqZ 0 11)) (fresh 10 0) = Returns (filled 10 0 (seqZ 0 11)))
    by evaluated.
  assert (H6 : start (filled 10 0 (seqZ 0 11)) <= 3 < end_ (filled 10 0 (seqZ 0 11)))
    by (split; evaluated).
  do 6 (split; [assumption |]).
  etrans; [exact (proj1 (Read_available 10 0 (fresh 10 0) (writes (seqZ 0 11))
                           (filled 10 0 (seqZ 0 11)) [] 3 H1 H2 H3 H4 H5 H6)) |].
  evaluated.
Defined.

(** C7 as worded fails at the top of int64: capacity 1, offset 2^63 - 1.
    One Write wraps [end] around to -2^63 while [start] stays. *)
Lemma window_wraps_around :
  ~ (forall (n s0 : Z) (ops : list Op) (b0 b : RingBuffer),
       n <= max_int64 -> int64 s0 -> Forall typed_op ops ->
       NewRingBuffer n s0 = Returns b0 -> run ops b0 = Returns b ->
       start b <= end_ b /\ end_ b - start b <= n).
Proof.
  intros H.
  destruct (H 1 max_int64 [OpWrite (item 0)] (fresh 1 max_int64)
              {| buffer := [Some (item 0)]; size := 1;
                 start := max_int64; end_ := min_int64 |}) as [H1 _].
  - evaluated.
  - split; evaluated.
  - repeat constructor.
  - reflexivity.
  - vm_compute. reflexivity.
  - vm_compute in H1. apply H1. reflexivity.
Qed.

Lemma window_invariant_witness :
  10 <= max_int64 /\ int64 0 /\ Forall typed_op (writes (seqZ 0 11)) /\
  NewRingBuffer 10 0 = Returns (fresh 10 0) /\
  no_wrap (writes (seqZ 0 11)) (fresh 10 0) /\
  run (writes (seqZ 0 11)) (fresh 10 0) = Returns (filled 10 0 (seqZ 0 11)) /\
  start (filled 10 0 (seqZ 0 11)) <= end_ (filled 10 0 (seqZ 0 11)) /\
  end_ (filled 10 0 (seqZ 0 11)) - start (filled 10 0 (seqZ 0 11)) <= 10.
Proof.
  assert (H1 : 10 <= max_int64) by evaluated.
  assert (H2 : int64 0) by (split; evaluated).
  assert (H3 : Forall typed_op (writes (seqZ 0 11))) by (repeat constructor).
  assert (H4 : NewRingBuffer 10 0 = Returns (fresh 10 0)) by evaluated.
  assert (H5 : no_wrap (writes (seqZ 0 11)) (fresh 10 0))
    by (vm_compute; repeat split).
  assert (H6 : run (writes (seqZ 0 11)) (fresh 10 0) = Returns (filled 10 0 (seqZ 0 11)))
    by evaluated.
  do 6 (split; [assumption |]).
  exact (window_invariant 10 0 (fresh 10 0) (writes (seqZ 0 11))
           (filled 10 0 (seqZ 0 11)) H1 H2 H3 H4 H5 H6).
Defined.

Lemma Read_next_ge_start_witness :
  int64 0 /\ int64 (end_ (ringbuffer.rb (live (fresh 10 0)))) /\
  Forall typed_event [Mutate (OpWrite (item 0))] /\
  Read (live (fresh 10 0)) [Mutate (OpWrite (item 0))] 0 =
    Returns (1, [Some (item 0)], None) /\
  0 <= 1.
Proof.
  assert (H1 : int64 0) by (split; evaluated).
  assert (H2 : int64 (end_ (ringbuffer.rb (live (fresh 10 0))))) by (split; evaluated).
  assert (H3 : Forall typed_event [Mutate (OpWrite (item 0))]) by (repeat constructor).
  assert (H4 : Read (live (fresh 10 0)) [Mutate (OpWrite (item 0))] 0 =
               Returns (1, [Some (item 0)], None)) by evaluated.
  do 4 (split; [assumption |]).
  exact (Read_next_ge_start (live (fresh 10 0)) [Mutate (OpWrite (item 0))] 0 1
           [Some (item 0)] H1 H2 H3 H4).
Defined.

Lemma Read_cancelled_takes_precedence_witness :
  start (filled 10 0 [0; 1; 2]) <= 1 < end_ (filled 10 0 [0; 1; 2]) /\
  Read (cancelled Canceled (filled 10 0 [0; 1; 2])) [] 1 =
    Returns (1, [], Some (CtxErr Canceled)).
Proof.
  assert (H1 : start (filled 10 0 [0; 1; 2]) <= 1 < end_ (filled 10 0 [0; 1; 2]))
    by (split; evaluated).
  split; [assumption |].
  exact (Read_cancelled_takes_precedence Canceled (filled 10 0 [0; 1; 2]) [] 1 H1).
Defined.

End Instances.

(** * Further properties of the code *)

(** ** Write: when it returns, and where the window is afterwards *)

Section WriteMore.

Implicit Types (b : RingBuffer) (it : Item).

(** X1: Write panics with a division by zero exactly on a buffer of capacity
    0, with an index out of range exactly when [end] is negative and not a
    multiple of the capacity, and returns otherwise. *)
Theorem Write_outcome b it :
  Z.of_nat (length (buffer b)) = size b ->
  (Write b it = Panics DivideByZero <-> size b = 0) /\
  (Write b it = Panics IndexOutOfRange <->
     0 < size b /\ end_ b < 0 /\ Z.rem (end_ b) (size b) <> 0) /\
  ((exists b', Write b it = Returns b') <->
     0 < size b /\ (0 <= end_ b \/ Z.rem (end_ b) (size b) = 0)).
Proof.
  intros Hlen.
  assert (Hsz : 0 <= size b) by lia.
  pose proof (Z.rem_bound_abs (end_ b) (size b)) as Habs.
  destruct (Z.eq_dec (size b) 0) as [E0 | Hnz].
  { assert (Hw : Write b it = Panics DivideByZero).
    { unfold Write. rewrite E0. reflexivity. }
    rewrite Hw. split; [| split].
    - split; [intros _; exact E0 | reflexivity].
    - split; [discriminate | lia].
    - split; [intros [b' Hb']; discriminate | lia]. }
  destruct (Z_lt_ge_dec (Z.rem (end_ b) (size b)) 0) as [Hneg | Hpos].
  - assert (Hw : Write b it = Panics IndexOutOfRange).
    { unfold Write. destruct (Z.eqb_spec (size b) 0); [lia |].
      destruct (Z.ltb_spec (Z.rem (end_ b) (size b)) 0); [reflexivity | lia]. }
    assert (Hend : end_ b < 0).
    { destruct (Z_lt_ge_dec (end_ b) 0); [assumption |].
      pose proof (Z.rem_nonneg (end_ b) (size b)). lia. }
    rewrite Hw. split; [| split].
    + split; [discriminate | lia].
    + split; [intros _; lia | reflexivity].
    + split; [intros [b' Hb']; discriminate | lia].
  - rewrite Write_returns by lia.
    assert (Hend : 0 <= end_ b \/ Z.rem (end_ b) (size b) = 0).
    { destruct (Z_lt_ge_dec (end_ b) 0); [| left; lia].
      right. apply rem_negative_slot; lia. }
    split; [| split].
    + split; [discriminate | lia].
    + split; [discriminate | lia].
    + split; [intros _; split; [lia | exact Hend] | intros _; eexists; reflexivity].
Qed.

(** X2: After [k] Writes on a buffer whose window is in order and whose
    offsets are not negative and do not reach the top of int64, every Write
    has returned, the end has moved up by [k] and the start is the later of
    the old start and [end - N]: the oldest items go first, one per Write
    once the window is full. *)
Theorem Writes_window its : forall b,
  typed b -> 0 < size b -> start b <= end_ b -> end_ b - start b <= size b ->
  0 <= end_ b -> end_ b + Z.of_nat (length its) <= max_int64 ->
  exists b', run (map OpWrite its) b = Returns b' /\
             size b' = size b /\
             end_ b' = end_ b + Z.of_nat (length its) /\
             start b' = Z.max (start b) (end_ b + Z.of_nat (length its) - size b).
Proof.
  induction its as [| it its IH]; intros b Hb Hsz Hle Hwid Hend Hmax.
  - exists b. simpl. repeat split; lia.
  - simpl (length _) in *. simpl (map _ _). simpl (run _ _).
    pose proof Hb as [Hs Hl Ha He].
    rewrite Write_returns; [| exact Hl | exact Hsz | apply Z.rem_nonneg; lia].
    simpl.
    rewrite (wrap64_id (end_ b - start b))
      by (unfold int64, min_int64, max_int64 in *; lia).
    rewrite (wrap64_succ (end_ b)) by (unfold int64, min_int64, max_int64 in *; lia).
    match goal with |- exists b', run _ ?b1 = _ /\ _ =>
      destruct (IH b1) as (b' & Hrun & Hsz' & Hend' & Hstart') end; simpl.
    + split; simpl.
      * exact Hs.
      * rewrite length_insert. exact Hl.
      * destruct (Z.eqb_spec (end_ b - start b) (size b)); [| exact Ha].
        apply wrap64_int64.
      * unfold int64, min_int64, max_int64 in *. lia.
    + exact Hsz.
    + destruct (Z.eqb_spec (end_ b - start b) (size b));
        [rewrite wrap64_succ by (unfold int64, min_int64, max_int64 in *; lia) |]; lia.
    + destruct (Z.eqb_spec (end_ b - start b) (size b));
        [rewrite wrap64_succ by (unfold int64, min_int64, max_int64 in *; lia) |]; lia.
    + lia.
    + lia.
    + exists b'. split; [exact Hrun |]. simpl in *.
      split; [exact Hsz' |]. split; [lia |].
      rewrite Hstart'.
      destruct (Z.eqb_spec (end_ b - start b) (size b));
        [rewrite wrap64_succ by (unfold int64, min_int64, max_int64 in *; lia) |]; lia.
Qed.

End WriteMore.

(** ** Read: the wait that ends well, cancellation, Reset and eviction *)

Section ReadMore.

Implicit Types (w : World) (env : list Event) (b : RingBuffer) (ops : list Op).

Lemma occur_all_mutates ops : forall w,
  occur_all (map Mutate ops) w =
    b' ← run ops (rb w); Returns {| rb := b'; ctx_Err := ctx_Err w |}.
Proof.
  induction ops as [| o ops IH]; intros w; simpl.
  - destruct w. reflexivity.
  - destruct (apply o (rb w)) as [b1 |]; simpl; [| reflexivity].
    rewrite IH. reflexivity.
Qed.

Lemma occur_all_app env1 : forall env2 w,
  occur_all (env1 ++ env2) w = w1 ← occur_all env1 w; occur_all env2 w1.
Proof.
  induction env1 as [| ev env1 IH]; intros env2 w; simpl; [reflexivity |].
  destruct (occur ev w) as [w1 |]; simpl; [apply IH | reflexivity].
Qed.

Lemma broadcasts_mutates ops : ops <> [] -> existsb broadcasts (map Mutate ops) = true.
Proof. destruct ops; [congruence | reflexivity]. Qed.

(** The loop over a stretch that lies in the window of a consistent
    buffer. *)
Lemma collect_within b h s :
  typed b -> consistent b h -> start b <= s <= end_ b ->
  (wrap64 (end_ b - s) <? 0) = false /\
  read_loop (Z.to_nat (end_ b - s)) b (end_ b) s [] =
    Returns (end_ b, map h (seqZ s (end_ b - s))).
Proof.
  intros Hb Hc Hs.
  assert (Hwid : end_ b - start b <= size b).
  { apply (consistent_width b h); [assumption | assumption | lia]. }
  pose proof Hb as [Hsz Hlen Ha He].
  split.
  - rewrite wrap64_id by (unfold int64, min_int64, max_int64 in *; lia).
    destruct (Z.ltb_spec (end_ b - s) 0); [lia | reflexivity].
  - rewrite (read_loop_slots h); [reflexivity | exact He | | exact Hlen | | lia | lia].
    + unfold int64 in Ha. lia.
    + intros i Hi.
      destruct (consistent_window b h i Hb Hc) as (Hrem & it & Hh & Hbuf); [lia |].
      split; [exact Hrem |]. rewrite Hh. exact Hbuf.
Qed.

(** A Read that waited and wakes, its context live, with its start inside
    the new window or at its end. *)
Lemma Read_woken_consistent w env b' h s :
  start (rb w) <= s -> s = end_ (rb w) ->
  Wait w env = Returns (live b') ->
  typed b' -> consistent b' h -> start b' <= s <= end_ b' ->
  Read w env s = Returns (end_ b', map h (seqZ s (end_ b' - s)), None).
Proof.
  intros H1 H2 Hwait Hb Hc Hs.
  unfold Read. rewrite endOffset_at_end by assumption. rewrite Hwait. simpl.
  destruct (collect_within b' h s Hb Hc Hs) as [Hcap Hloop].
  rewrite Hcap, Hloop. reflexivity.
Qed.

(** X3: A Read at the window end waits; when the Writes and Resets that ran
    meanwhile leave its start inside the new window or at its end, it
    returns the new end, no error and exactly the items written from its
    start up to the new end (none if the start is the new end). *)
Theorem Read_woken_within n s0 b0 ops1 b ops2 b' s :
  n <= max_int64 -> int64 s0 -> Forall typed_op ops1 -> Forall typed_op ops2 ->
  NewRingBuffer n s0 = Returns b0 -> run ops1 b0 = Returns b ->
  start b <= s -> s = end_ b ->
  ops2 <> [] -> run ops2 b = Returns b' ->
  start b' <= s <= end_ b' ->
  Read (live b) (map Mutate ops2) s =
    Returns (end_ b',
             map (written (ops1 ++ ops2) b0 (fun _ => None)) (seqZ s (end_ b' - s)),
             None).
Proof.
  intros Hn Hs0 Ht1 Ht2 Hnew Hrun1 H1 H2 Hne Hrun2 Hs.
  destruct (reached_consistent n s0 b0 (ops1 ++ ops2) b') as [Hb' Hc'];
    try assumption.
  { apply Forall_app_2; assumption. }
  { rewrite run_app, Hrun1. exact Hrun2. }
  apply Read_woken_consistent; try assumption.
  unfold Wait. rewrite broadcasts_mutates by exact Hne.
  rewrite occur_all_mutates. simpl. rewrite Hrun2. reflexivity.
Qed.

(** X4: A Read that waits while its context is cancelled is not woken by the
    cancellation: without a Write or Reset it stays blocked. Once a Write
    or Reset wakes it, it returns its start, the context's error and no
    items, whatever was written during the wait. *)
Theorem Read_cancelled_while_waiting b ops1 e ops2 b' s :
  start b <= s -> s = end_ b ->
  ops1 ++ ops2 <> [] -> run (ops1 ++ ops2) b = Returns b' ->
  Read (live b) [Cancel e] s = Blocks /\
  Read (live b) (map Mutate ops1 ++ Cancel e :: map Mutate ops2) s =
    Returns (s, [], Some (CtxErr e)).
Proof.
  intros H1 H2 Hne Hrun.
  split.
  - unfold Read. rewrite endOffset_at_end by assumption. reflexivity.
  - unfold Read. rewrite endOffset_at_end by assumption.
    unfold Wait. rewrite existsb_app. simpl.
    assert (Hb : existsb broadcasts (map Mutate ops1)
                 || existsb broadcasts (map Mutate ops2) = true).
    { destruct ops1; [destruct ops2 |]; simpl; try reflexivity.
      exfalso. apply Hne. reflexivity. }
    rewrite Hb. clear Hb.
    rewrite run_app in Hrun.
    destruct (run ops1 b) as [b1 |] eqn:E1; simpl in Hrun; [| discriminate].
    rewrite occur_all_app, occur_all_mutates. simpl. rewrite E1. simpl.
    rewrite occur_all_mutates. simpl. rewrite Hrun. reflexivity.
Qed.

(** X5: Reset(k) leaves nothing to read: on the reset buffer a Read below [k]
    fails with ErrBeforeBuffer, a Read above [k] fails with ErrAfterBuffer,
    and a Read at [k] waits; the Write that follows wakes it with the item
    written, and the offset [k + 1]. *)
Theorem Reset_discards b k it s :
  typed b -> 0 < size b -> 0 <= k < max_int64 ->
  (s < k -> Read (live (Reset b k)) [] s =
              Returns (s, [], Some (ErrBeforeBuffer s k (wrap64 (k - s))))) /\
  (k < s -> Read (live (Reset b k)) [] s = Returns (s, [], Some ErrAfterBuffer)) /\
  Read (live (Reset b k)) [] k = Blocks /\
  Read (live (Reset b k)) [Mutate (OpWrite it)] k = Returns (k + 1, [Some it], None).
Proof.
  intros Hb Hsz Hk.
  pose proof Hb as [Hs Hl Ha He].
  split; [| split; [| split]].
  - intros Hlt. unfold Read. rewrite endOffset_before by (simpl; lia). reflexivity.
  - intros Hgt. unfold Read. rewrite endOffset_after by (simpl; lia). reflexivity.
  - unfold Read. rewrite endOffset_at_end by (simpl; lia). reflexivity.
  - assert (Hb1 : typed (Reset b k)).
    { split; simpl; try assumption; unfold int64, min_int64, max_int64 in *; lia. }
    assert (Hw : Write (Reset b k) it = Returns
              {| buffer := <[Z.to_nat (Z.rem k (size b)) := Some it]> (buffer b);
                 size := size b; start := k; end_ := k + 1 |}).
    { rewrite Write_returns; simpl; [| exact Hl | exact Hsz | apply Z.rem_nonneg; lia].
      rewrite Z.sub_diag. change (wrap64 0) with 0.
      destruct (Z.eqb_spec 0 (size b)); [lia |].
      rewrite wrap64_succ by (unfold min_int64, max_int64 in *; lia). reflexivity. }
    set (h := record (OpWrite it) (Reset b k) (fun _ => None)).
    set (b2 := {| buffer := <[Z.to_nat (Z.rem k (size b)) := Some it]> (buffer b);
                  size := size b; start := k; end_ := k + 1 |}) in Hw.
    rewrite (Read_woken_consistent (live (Reset b k)) [Mutate (OpWrite it)] b2 h k).
    + subst h b2. simpl. replace (k + 1 - k) with 1 by lia.
      rewrite seqZ_cons by lia. simpl. rewrite Z.eqb_refl. reflexivity.
    + simpl. lia.
    + reflexivity.
    + unfold Wait. simpl. rewrite Hw. reflexivity.
    + destruct (apply_typed (OpWrite it) (Reset b k) b2 Hb1 I Hw) as [Hb2 _]. exact Hb2.
    + apply (Write_consistent (Reset b k) it b2 (fun _ => None) Hb1); [| exact Hw].
      apply Reset_consistent. lia.
    + simpl. lia.
Qed.

End ReadMore.

(** ** Eviction, and Reads one after the other *)

Section ReadSequence.

Implicit Types (w : World) (env : list Event) (b : RingBuffer) (ops : list Op).

(** Writes alone, short of the top of int64, move the end up by one each
    and leave the history below the old end as it was. *)
Lemma Writes_end its : forall b b' h,
  int64 (end_ b) -> end_ b + Z.of_nat (length its) <= max_int64 ->
  run (map OpWrite its) b = Returns b' ->
  end_ b' = end_ b + Z.of_nat (length its) /\
  forall i, i < end_ b -> written (map OpWrite its) b h i = h i.
Proof.
  induction its as [| it its IH]; intros b b' h He Hmax; simpl (map _ _).
  - simpl. intros [= <-]. split; [lia | reflexivity].
  - simpl (length _) in Hmax. simpl.
    destruct (Write b it) as [b1 |] eqn:Ew; simpl; [| discriminate].
    intros Hrun. pose proof Ew as Ew'.
    apply Write_inv in Ew' as (_ & _ & Hb1).
    assert (Hend1 : end_ b1 = end_ b + 1).
    { rewrite Hb1. simpl. apply wrap64_succ. unfold int64 in He. lia. }
    destruct (IH b1 b' (fun i => if i =? end_ b then Some it else h i)) as [Hend Hold];
      [unfold int64 in *; lia | lia | exact Hrun |].
    split; [lia |].
    intros i Hi. rewrite Hold by lia.
    destruct (Z.eqb_spec i (end_ b)); [lia | reflexivity].
Qed.

(** X6: A Write on a full window evicts exactly the oldest item: the old
    start can no longer be read (ErrBeforeBuffer), and a Read from the next
    offset returns the other items of the old window, in order, followed by
    the item written. *)
Theorem Write_evicts_oldest n s0 b0 ops b it b' env :
  n <= max_int64 -> int64 s0 -> Forall typed_op ops ->
  NewRingBuffer n s0 = Returns b0 -> run ops b0 = Returns b ->
  0 < size b -> end_ b - start b = size b -> end_ b < max_int64 ->
  Write b it = Returns b' ->
  start b' = start b + 1 /\ end_ b' = end_ b + 1 /\
  Read (live b') env (start b) =
    Returns (start b, [], Some (ErrBeforeBuffer (start b) (start b + 1) 1)) /\
  Read (live b') env (start b + 1) =
    Returns (end_ b + 1,
             map (written ops b0 (fun _ => None)) (seqZ (start b + 1) (size b - 1))
               ++ [Some it],
             None).
Proof.
  intros Hn Hs0 Hops Hnew Hrun Hsz Hfull Hmax Hw.
  destruct (reached_consistent n s0 b0 ops b Hn Hs0 Hops Hnew Hrun) as [Hb Hc].
  set (h := written ops b0 (fun _ => None)) in *.
  pose proof (Write_consistent b it b' h Hb Hc Hw) as Hc'.
  destruct (apply_typed (OpWrite it) b b' Hb I Hw) as [Hb' Hsz'].
  pose proof Hb as [Hs Hl Ha He].
  assert (Hstart : start b' = start b + 1).
  { apply Write_inv in Hw as (_ & _ & ->). simpl.
    rewrite wrap64_id by (unfold int64, min_int64, max_int64 in *; lia).
    destruct (Z.eqb_spec (end_ b - start b) (size b)); [| lia].
    apply wrap64_succ. unfold int64 in *. lia. }
  assert (Hend : end_ b' = end_ b + 1).
  { apply Write_inv in Hw as (_ & _ & ->). simpl.
    apply wrap64_succ. unfold int64 in *. lia. }
  split; [exact Hstart |]. split; [exact Hend |]. split.
  - unfold Read. rewrite endOffset_before by (simpl; lia). simpl.
    rewrite Hstart. replace (start b + 1 - start b) with 1 by lia. reflexivity.
  - rewrite (Read_within_consistent b' _ env (start b + 1) Hb' Hc') by lia.
    rewrite Hend. apply (f_equal (fun l => Returns (end_ b + 1, l, None))).
    replace (end_ b + 1 - (start b + 1)) with ((size b - 1) + 1) by lia.
    rewrite seqZ_app by lia. rewrite map_app. apply (f_equal2 app).
    + apply map_ext_in. intros i Hi.
      apply list_elem_of_In, elem_of_seqZ in Hi. simpl.
      destruct (Z.eqb_spec i (end_ b)); [lia | reflexivity].
    + rewrite seqZ_cons by lia. simpl.
      replace (start b + 1 + (size b - 1)) with (end_ b) by lia.
      rewrite Z.eqb_refl. reflexivity.
Qed.

(** X7: Two Reads in a row lose nothing and repeat nothing: after a Read from
    [s] that returned the window end [B], and Writes that did not overtake
    [B], a Read from [B] returns the new end, and the items of the two Reads
    together are the items written at the offsets from [s] to the new end,
    each once and in order. *)
Theorem Reads_compose n s0 b0 ops b its b2 s env1 env2 :
  n <= max_int64 -> int64 s0 -> Forall typed_op ops ->
  NewRingBuffer n s0 = Returns b0 -> run ops b0 = Returns b ->
  start b <= s < end_ b ->
  its <> [] -> end_ b + Z.of_nat (length its) <= max_int64 ->
  run (map OpWrite its) b = Returns b2 ->
  start b2 <= end_ b ->
  exists items1 items2,
    Read (live b) env1 s = Returns (end_ b, items1, None) /\
    Read (live b2) env2 (end_ b) = Returns (end_ b2, items2, None) /\
    end_ b2 = end_ b + Z.of_nat (length its) /\
    items1 ++ items2 =
      map (written (ops ++ map OpWrite its) b0 (fun _ => None)) (seqZ s (end_ b2 - s)).
Proof.
  intros Hn Hs0 Hops Hnew Hrun Hs Hne Hmax Hrun2 Hnot.
  destruct (reached_consistent n s0 b0 ops b Hn Hs0 Hops Hnew Hrun) as [Hb Hc].
  assert (Hops2 : Forall typed_op (ops ++ map OpWrite its)).
  { apply Forall_app_2; [exact Hops |]. apply Forall_fmap, Forall_true. intros it. exact I. }
  destruct (reached_consistent n s0 b0 (ops ++ map OpWrite its) b2 Hn Hs0 Hops2 Hnew)
    as [Hb2 Hc2].
  { rewrite run_app, Hrun. exact Hrun2. }
  set (h := written ops b0 (fun _ => None)) in *.
  set (h2 := written (ops ++ map OpWrite its) b0 (fun _ => None)) in *.
  destruct (Writes_end its b b2 h) as [Hend Hold]; [apply Hb | exact Hmax | exact Hrun2 |].
  assert (Hlen : 0 < Z.of_nat (length its)) by (destruct its; [congruence | simpl; lia]).
  assert (Hh : forall i, i < end_ b -> h2 i = h i).
  { intros i Hi. subst h2 h. rewrite (written_app ops _ b0 b _ Hrun). apply Hold. exact Hi. }
  exists (map h (seqZ s (end_ b - s))), (map h2 (seqZ (end_ b) (end_ b2 - end_ b))).
  split; [apply Read_within_consistent; assumption |].
  split; [apply Read_within_consistent; [assumption | assumption | lia] |].
  split; [exact Hend |].
  replace (end_ b2 - s) with ((end_ b - s) + (end_ b2 - end_ b)) by lia.
  rewrite seqZ_app by lia. rewrite map_app.
  replace (s + (end_ b - s)) with (end_ b) by lia. apply (f_equal2 app); [| reflexivity].
  apply map_ext_in. intros i Hi.
  apply list_elem_of_In, elem_of_seqZ in Hi. symmetry. apply Hh. lia.
Qed.

End ReadSequence.

(** ** WriteItems: quiet waits, errors, ids it cannot place, the latest item *)

Section SequencerMore.

Import pgnotifier.

Implicit Types (st : Sequencer) (b : RingBuffer) (it : Item) (waits : list Waited).

Lemma loop_app waits1 : forall waits2 st,
  loop (waits1 ++ waits2) st =
    match loop waits1 st with
    | (st1, Returns _) => loop waits2 st1
    | (st1, Stops stop) => (st1, Stops stop)
    end.
Proof.
  induction waits1 as [| r waits1 IH]; intros waits2 st; [reflexivity |].
  simpl app. rewrite !loop_cons.
  destruct (iteration r st) as [st1 [[] | stop]]; [apply IH | reflexivity].
Qed.

(** X8: The waits in which nothing arrived change nothing: WriteItems does
    the same with and without them. *)
Theorem WriteItems_skips_quiet waits b :
  WriteItems waits b = WriteItems (List.filter heard waits) b.
Proof.
  unfold WriteItems. generalize {| lastId := -1; rb := b; calls := [] |}.
  induction waits as [| r waits IH]; intros st; [reflexivity |].
  destruct r as [it | |]; simpl List.filter.
  - rewrite !loop_cons. destruct (iteration (GotItem it) st) as [st1 [[] | stop]];
      [apply IH | reflexivity].
  - rewrite loop_cons. simpl. apply IH.
  - rewrite !loop_cons. reflexivity.
Qed.

(** X9: A listen error ends WriteItems where it stands: the buffer, [lastId]
    and the calls made are those of the items before the error, and nothing
    that arrives after it is written. *)
Theorem WriteItems_exits_at_error waits1 waits2 b st :
  WriteItems waits1 b = (st, Returns tt) ->
  WriteItems (waits1 ++ GotError :: waits2) b = (st, Stops Exited).
Proof.
  unfold WriteItems. intros H. rewrite loop_app, H. reflexivity.
Qed.

(** X10: An out-of-sequence id that is negative and not a multiple of the
    capacity resets the buffer to that id and then panics in Write (index
    out of range): [lastId] is not updated and nothing more is processed. *)
Theorem gap_to_negative_id_panics waits b st it rest :
  WriteItems waits b = (st, Returns tt) ->
  Z.of_nat (length (buffer (rb st))) = size (rb st) -> 0 < size (rb st) ->
  Id it <> wrap64 (lastId st + 1) ->
  Z.rem (Id it) (size (rb st)) < 0 ->
  WriteItems (waits ++ GotItem it :: rest) b =
    ({| lastId := lastId st;
        rb := Reset (rb st) (Id it);
        calls := calls st ++ [OpReset (Id it); OpWrite it] |},
     Panics IndexOutOfRange).
Proof.
  unfold WriteItems. intros H Hlen Hsz Hgap Hrem.
  rewrite loop_app, H, loop_cons.
  unfold iteration, mbind, M_bind, get_lastId, rb_call, set_lastId. simpl.
  destruct (Z.eqb_spec (Id it) (wrap64 (lastId st + 1))) as [E | _]; [contradiction |].
  simpl.
  assert (Hw : Write (Reset (rb st) (Id it)) it = Panics IndexOutOfRange).
  { unfold Write. simpl.
    destruct (Z.eqb_spec (size (rb st)) 0); [lia |].
    destruct (Z.ltb_spec (Z.rem (Id it) (size (rb st))) 0); [reflexivity | lia]. }
  rewrite Hw. simpl. rewrite <- app_assoc. reflexivity.
Qed.


(** The width of the window, as the code counts it, is at least 1 after
    the calls decided on for an item. *)
Lemma decided_width last it b b' :
  typed b -> 0 <= wrap64 (end_ b - start b) <= size b -> int64 (Id it) ->
  run (decided last it) b = Returns b' ->
  1 <= wrap64 (end_ b' - start b') <= size b'.
Proof.
  intros Hb Hw Hid. unfold decided.
  destruct (Id it =? wrap64 (last + 1)); simpl.
  - destruct (Write b it) as [b1 |] eqn:Ew; simpl; [| discriminate].
    intros [= <-]. rewrite (Write_width b it b1 Hb Hw Ew).
    pose proof Ew as Ew'. apply Write_inv in Ew' as (Hnz & _ & ->). simpl.
    destruct Hb as [Hs _ _ _].
    destruct (Z.eqb_spec (wrap64 (end_ b - start b)) (size b)); lia.
  - destruct (Write (Reset b (Id it)) it) as [b1 |] eqn:Ew; simpl; [| discriminate].
    intros [= <-].
    assert (Hb1 : typed (Reset b (Id it))).
    { destruct Hb. split; simpl; assumption. }
    assert (Hw1 : 0 <= wrap64 (end_ (Reset b (Id it)) - start (Reset b (Id it)))
                  <= size (Reset b (Id it))).
    { simpl. rewrite Z.sub_diag. change (wrap64 0) with 0. destruct Hb. lia. }
    rewrite (Write_width _ it b1 Hb1 Hw1 Ew).
    pose proof Ew as Ew'. apply Write_inv in Ew' as (Hnz & _ & ->). simpl in *.
    rewrite Z.sub_diag in *. change (wrap64 0) with 0 in *.
    destruct Hb as [Hs _ _ _].
    destruct (Z.eqb_spec 0 (size b)); lia.
Qed.

(** X12: Right after an item has been accepted (and through any quiet waits
    that follow it) the item is in the buffer: [lastId] is its id, and a
    Read from that id returns the item and the next offset. *)
Theorem latest_item_readable n waits it k env :
  0 < n <= max_int64 ->
  Forall feedable waits -> Forall typed_wait waits ->
  0 <= Id it < max_int64 ->
  exists st,
    WriteItems (waits ++ GotItem it :: replicate k GotNothing) (fresh n 0)
      = (st, Returns tt) /\
    lastId st = Id it /\
    Read (live (rb st)) env (Id it) = Returns (Id it + 1, [Some it], None).
Proof.
  intros Hn Hfeed Htyped Hid.
  set (st0 := {| lastId := -1; rb := fresh n 0; calls := [] |}).
  assert (Hst0 : in_step (fresh n 0) st0).
  { unfold in_step. simpl. repeat split; [constructor | discriminate]. }
  assert (Hb0 : typed (fresh n 0)).
  { apply (NewRingBuffer_typed n 0); [lia | split; evaluated |].
    apply NewRingBuffer_returns. lia. }
  destruct (loop_returns waits st0) as (st1 & Hloop1 & _); simpl; try assumption.
  { rewrite length_replicate. lia. }
  { lia. }
  { reflexivity. }
  pose proof (loop_in_step (fresh n 0) waits st0 st1 Htyped Hst0 Hloop1)
    as (Hrun1 & Hty1 & Hend1 & Hids1).
  destruct (run_typed _ _ _ Hb0 Hty1 Hrun1) as [Hb1 Hsz1]. simpl in Hsz1.
  destruct (reached_consistent n 0 (fresh n 0) (calls st1) (rb st1)) as [_ Hc1];
    [lia | split; evaluated | exact Hty1 | apply NewRingBuffer_returns; lia | exact Hrun1 |].
  destruct (decided_returns (lastId st1) it (rb st1)) as (b' & Hdec & Hlen' & Hsz' & Hend');
    [apply Hb1 | lia | exact Hend1 | lia |].
  set (st2 := {| lastId := Id it; rb := b';
                 calls := calls st1 ++ decided (lastId st1) it |}).
  assert (Hiter : iteration (GotItem it) st1 = (st2, Returns tt)).
  { apply iteration_item_returns. exact Hdec. }
  assert (Hidt : int64 (Id it)) by (unfold int64, min_int64, max_int64 in *; lia).
  pose proof (iteration_in_step (fresh n 0) (GotItem it) st1 st2 Hidt
                (conj Hrun1 (conj Hty1 (conj Hend1 Hids1))) Hiter)
    as (Hrun2 & Hty2 & _ & Hids2).
  simpl in Hrun2, Hty2, Hids2.
  destruct (reached_consistent n 0 (fresh n 0) (calls st1 ++ decided (lastId st1) it) b')
    as [Hb2 Hc2];
    [lia | split; evaluated | exact Hty2 | apply NewRingBuffer_returns; lia | exact Hrun2 |].
  pose proof (decided_width (lastId st1) it (rb st1) b' Hb1 (proj1 Hc1) Hidt Hdec) as Hwid.
  assert (Hend2 : end_ b' = Id it + 1).
  { rewrite Hend'. apply wrap64_succ. unfold min_int64, max_int64 in *. lia. }
  assert (Hstart2 : start b' <= Id it).
  { destruct (wrap64_cong (end_ b' - start b')) as [kw Hkw].
    destruct Hb2 as [Hs2 _ Ha2 He2].
    unfold int64, min_int64, max_int64 in *. lia. }
  exists st2. split; [| split; [reflexivity |]].
  - unfold WriteItems. fold st0. rewrite loop_app, Hloop1, loop_cons, Hiter.
    rewrite <- (app_nil_r (replicate k GotNothing)). rewrite loop_quiet. reflexivity.
  - simpl. rewrite (Read_within_consistent b' _ env (Id it) Hb2 Hc2) by lia.
    rewrite Hend2. replace (Id it + 1 - Id it) with 1 by lia.
    rewrite seqZ_cons by lia. simpl.
    destruct (consistent_window b' _ (Id it) Hb2 Hc2) as (_ & it' & Hh & _); [lia |].
    rewrite Hh. apply Hids2 in Hh. destruct it as [i], it' as [i']. simpl in Hh.
    subst i'. reflexivity.
Qed.

End SequencerMore.

(** ** GetUpdates: what a reader logs *)

Section Reader.

Import reader.

Implicit Types (w : World) (env : list Event) (b : RingBuffer) (ops : list Op)
  (rounds : list Round) (log : list Line).

Lemma occur_all_split env : forall w,
  occur_all env w =
    b' ← run (ops_of env) (rb w);
    Returns {| rb := b'; ctx_Err := cancel_after env (ctx_Err w) |}.
Proof.
  induction env as [| ev env IH]; intros w.
  - destruct w. reflexivity.
  - destruct ev as [o | e]; simpl.
    + destruct (apply o (rb w)) as [b1 |]; simpl; [| reflexivity].
      rewrite IH. reflexivity.
    + rewrite IH. reflexivity.
Qed.

Lemma ops_of_app env1 env2 : ops_of (env1 ++ env2) = ops_of env1 ++ ops_of env2.
Proof. apply omap_app. Qed.

Lemma consecutive_app ops1 : forall e ops2,
  consecutive e (ops1 ++ ops2) <->
  consecutive e ops1 /\ consecutive (e + Z.of_nat (length ops1)) ops2.
Proof.
  induction ops1 as [| o ops1 IH]; intros e ops2.
  - simpl. rewrite Z.add_0_r. tauto.
  - destruct o as [it | k]; simpl app; simpl consecutive; [| tauto].
    rewrite IH. simpl length.
    replace (e + 1 + Z.of_nat (length ops1)) with (e + Z.of_nat (S (length ops1))) by lia.
    tauto.
Qed.

Lemma consistent_mono b (h h' : History) :
  (forall i it, h i = Some it -> h' i = Some it) ->
  consistent b h -> consistent b h'.
Proof.
  intros Hh [Hw Hin]. split; [exact Hw |].
  intros j Hj. destruct (Hin j Hj) as (Hrem & it & Hi & Hbuf).
  split; [exact Hrem |]. exists it. split; [apply Hh; exact Hi | exact Hbuf].
Qed.

(** Writes of consecutive ids from the window end keep every item at the
    offset of its id, and move the window as Writes do. *)
Lemma run_consecutive ops : forall b b',
  typed b -> consistent b by_id -> start b <= end_ b ->
  consecutive (end_ b) ops ->
  end_ b + Z.of_nat (length ops) <= max_int64 ->
  run ops b = Returns b' ->
  typed b' /\ consistent b' by_id /\ size b' = size b /\
  end_ b' = end_ b + Z.of_nat (length ops) /\
  start b' = Z.max (start b) (end_ b + Z.of_nat (length ops) - size b).
Proof.
  induction ops as [| o ops IH]; intros b b' Hb Hc Hle Hcons Hmax.
  - simpl. intros [= <-].
    pose proof (consistent_width b by_id Hb Hc Hle).
    split; [assumption |]. split; [assumption |]. split; [reflexivity |]. simpl. lia.
  - destruct o as [it | k]; simpl in Hcons; [| contradiction].
    destruct Hcons as [Hid Hcons]. simpl length in Hmax. simpl run.
    destruct (Write b it) as [b1 |] eqn:Ew; simpl; [| discriminate].
    intros Hrun.
    pose proof (consistent_width b by_id Hb Hc Hle) as Hwid.
    destruct (apply_typed (OpWrite it) b b1 Hb I Ew) as [Hb1 Hsz1].
    assert (Hc1 : consistent b1 by_id).
    { apply (consistent_mono b1 (record (OpWrite it) b by_id));
        [| apply Write_consistent; assumption].
      intros i it'. simpl. unfold by_id.
      destruct (Z.eqb_spec i (end_ b)) as [-> | _]; [| tauto].
      intros [= <-]. destruct it as [id]. simpl in Hid. subst id. reflexivity. }
    pose proof Hb as [Hs Hl Ha He]. pose proof Ew as Ew'.
    apply Write_inv in Ew' as (Hnz & _ & Hb1eq).
    assert (Hend1 : end_ b1 = end_ b + 1).
    { rewrite Hb1eq. simpl. apply wrap64_succ. unfold int64 in He. lia. }
    assert (Hstart1 : start b1 = Z.max (start b) (end_ b + 1 - size b)).
    { rewrite Hb1eq. simpl.
      rewrite wrap64_id by (unfold int64, min_int64, max_int64 in *; lia).
      destruct (Z.eqb_spec (end_ b - start b) (size b));
        [rewrite wrap64_succ by (unfold int64 in *; lia) |]; lia. }
    destruct (IH b1 b' Hb1 Hc1) as (Hb' & Hc' & Hsz' & Hend' & Hstart');
      [lia | rewrite Hend1; exact Hcons | lia | exact Hrun |].
    split; [assumption |]. split; [assumption |]. split; [lia |]. lia.
Qed.

Lemma item_ids_by_id l : forall ids,
  item_ids (map by_id l) ids = Some (ids ++ l).
Proof.
  induction l as [| i l IH]; intros ids; simpl.
  - rewrite app_nil_r. reflexivity.
  - rewrite IH, <- app_assoc. reflexivity.
Qed.

Lemma logged_ids_app log1 log2 :
  logged_ids (log1 ++ log2) = logged_ids log1 ++ logged_ids log2.
Proof. unfold logged_ids. rewrite map_app, concat_app. reflexivity. Qed.

Lemma turn_end_runs w r s :
  waits w s = false \/ existsb broadcasts (waiting r) = true ->
  turn_end w r s =
    b' ← run (ops_of (waiting r) ++ ops_of (pausing r)) (rb w);
    Returns {| rb := b'; ctx_Err := cancel_after (waiting r ++ pausing r) (ctx_Err w) |}.
Proof.
  intros H. rewrite <- ops_of_app, <- occur_all_split.
  unfold turn_end. destruct (waits w s); [| reflexivity].
  destruct H as [H | H]; [discriminate |].
  unfold Wait. rewrite H. rewrite occur_all_app. reflexivity.
Qed.

End Reader.

Section ReaderLog.

Import reader.

Implicit Types (w : World) (b : RingBuffer) (rounds : list Round) (log : list Line).

Lemma GetUpdates_cons r rounds w s log :
  GetUpdates (r :: rounds) w s log =
    match Read w (waiting r) s with
    | Stops stop => (log, Stopped stop)
    | Returns (_, _, Some err) => (log ++ [LogError err], Err err)
    | Returns (next, items, None) =>
        match item_ids items [] with
        | None => (log, NilItem)
        | Some ids =>
            match turn_end w r s with
            | Stops stop => (log ++ [LogIds ids], Stopped stop)
            | Returns w' =>
                match chosen r with
                | Tick => GetUpdates rounds w' next (log ++ [LogIds ids])
                | Done =>
                    match ctx_Err w' with
                    | Some e => (log ++ [LogIds ids], Err (CtxErr e))
                    | None => (log ++ [LogIds ids], Waiting)
                    end
                end
            end
        end
    end.
Proof. reflexivity. Qed.

Lemma logged_same log log' s :
  logged_ids log' = logged_ids log ->
  exists m, 0 <= m /\ logged_ids log' = logged_ids log ++ seqZ s m.
Proof.
  intros H. exists 0. split; [lia |]. rewrite H, seqZ_nil by lia.
  rewrite app_nil_r. reflexivity.
Qed.

Lemma logged_error log err : logged_ids (log ++ [LogError err]) = logged_ids log.
Proof. rewrite logged_ids_app. simpl. rewrite app_nil_r. reflexivity. Qed.

Lemma logged_line log ids : logged_ids (log ++ [LogIds ids]) = logged_ids log ++ ids.
Proof. rewrite logged_ids_app. unfold logged_ids at 2. simpl. rewrite app_nil_r. reflexivity. Qed.

(** On a buffer where every item sits at the offset of its id, fed
    meanwhile by Writes of consecutive ids, at most a windowful while a
    Read waits: the ids logged run on from the start given, however
    GetUpdates ends. *)
Lemma GetUpdates_contiguous rounds : forall b c s log log' ended,
  typed b -> consistent b by_id -> start b <= end_ b ->
  consecutive (end_ b) (script_ops rounds) ->
  end_ b + Z.of_nat (length (script_ops rounds)) <= max_int64 ->
  Forall (fun r => Z.of_nat (length (ops_of (waiting r))) <= size b) rounds ->
  GetUpdates rounds {| rb := b; ctx_Err := c |} s log = (log', ended) ->
  exists m, 0 <= m /\ logged_ids log' = logged_ids log ++ seqZ s m.
Proof.
  induction rounds as [| r rounds IH];
    intros b c s log log' ended Hb Hc Hle Hcons Hmax Hwait.
  { simpl. intros [= <- <-]. apply logged_same. reflexivity. }
  set (ops1 := ops_of (waiting r)) in *. set (ops2 := ops_of (pausing r)) in *.
  change (script_ops (r :: rounds)) with ((ops1 ++ ops2) ++ script_ops rounds) in *.
  rewrite length_app in Hmax.
  apply consecutive_app in Hcons as [Hcons12 Hconsr].
  pose proof Hcons12 as Hcons12'.
  apply consecutive_app in Hcons12' as [Hcons1 Hcons2].
  inversion Hwait as [| ? ? Hr Hwait']; subst. fold ops1 in Hr.
  pose proof (consistent_width b by_id Hb Hc Hle) as Hwid.
  pose proof Hb as [Hsz Hlen Ha He].
  pose proof (length_app ops1 ops2) as Hlen12.
  assert (Htail : forall next c',
    s <= next ->
    match (b' ← run (ops1 ++ ops2) b; Returns {| rb := b'; ctx_Err := c' |}) with
    | Stops stop => (log ++ [LogIds (seqZ s (next - s))], Stopped stop)
    | Returns w' =>
        match chosen r with
        | Tick => GetUpdates rounds w' next (log ++ [LogIds (seqZ s (next - s))])
        | Done =>
            match ctx_Err w' with
            | Some e => (log ++ [LogIds (seqZ s (next - s))], Err (CtxErr e))
            | None => (log ++ [LogIds (seqZ s (next - s))], Waiting)
            end
        end
    end = (log', ended) ->
    exists m, 0 <= m /\ logged_ids log' = logged_ids log ++ seqZ s m).
  { intros next c' Hnext.
    destruct (run (ops1 ++ ops2) b) as [b2 | stop] eqn:E2; simpl.
    - destruct (run_consecutive (ops1 ++ ops2) b b2 Hb Hc Hle Hcons12)
        as (Hb2 & Hc2 & Hsz2 & Hend2 & Hstart2); [lia | exact E2 |].
      destruct (chosen r).
      + intros H. apply IH in H; try assumption.
        * destruct H as (m & Hm & Hlog). exists (next - s + m). split; [lia |].
          rewrite Hlog, logged_line, <- app_assoc, seqZ_app by lia.
          replace (s + (next - s)) with next by lia. reflexivity.
        * lia.
        * rewrite Hend2. exact Hconsr.
        * lia.
        * rewrite Hsz2. exact Hwait'.
      + destruct c' as [e |]; intros [= <- <-]; exists (next - s);
          (split; [lia | apply logged_line]).
    - intros [= <- <-]. exists (next - s). split; [lia | apply logged_line]. }
  rewrite GetUpdates_cons.
  destruct (Z_lt_ge_dec s (start b)) as [Hlt | Hge].
  { assert (HR : Read {| rb := b; ctx_Err := c |} (waiting r) s =
              Returns (s, [], Some (ErrBeforeBuffer s (start b) (wrap64 (start b - s))))).
    { unfold Read. rewrite endOffset_before by (simpl; lia). reflexivity. }
    rewrite HR. intros [= <- <-]. apply logged_same, logged_error. }
  destruct (Z_lt_ge_dec s (end_ b)) as [Hin | Hout].
  { destruct c as [e |].
    - assert (HR : Read {| rb := b; ctx_Err := Some e |} (waiting r) s =
                Returns (s, [], Some (CtxErr e))).
      { unfold Read. rewrite endOffset_within by (simpl; lia). reflexivity. }
      rewrite HR. intros [= <- <-]. apply logged_same, logged_error.
    - change {| rb := b; ctx_Err := None |} with (live b).
      rewrite (Read_within_consistent b by_id (waiting r) s Hb Hc) by lia.
      rewrite item_ids_by_id. simpl app.
      rewrite turn_end_runs.
      + intros H. eapply (Htail (end_ b)); [lia | exact H].
      + left. unfold waits. simpl.
        destruct (Z.ltb_spec s (end_ b)); [| lia].
        rewrite andb_false_r. reflexivity. }
  destruct (Z.eq_dec s (end_ b)) as [Heq | Hne].
  2: { assert (HR : Read {| rb := b; ctx_Err := c |} (waiting r) s =
                Returns (s, [], Some ErrAfterBuffer)).
       { unfold Read. rewrite endOffset_after by (simpl; lia). reflexivity. }
       rewrite HR. intros [= <- <-]. apply logged_same, logged_error. }
  destruct (existsb broadcasts (waiting r)) eqn:Eb.
  2: { assert (HR : Read {| rb := b; ctx_Err := c |} (waiting r) s = Blocks).
       { unfold Read. rewrite endOffset_at_end by (simpl; lia).
         unfold Wait. rewrite Eb. reflexivity. }
       rewrite HR. intros [= <- <-]. apply logged_same. reflexivity. }
  assert (HW : Wait {| rb := b; ctx_Err := c |} (waiting r) =
            b1 ← run ops1 b;
            Returns {| rb := b1; ctx_Err := cancel_after (waiting r) c |}).
  { unfold Wait. rewrite Eb. apply occur_all_split. }
  destruct (run ops1 b) as [b1 | stop] eqn:E1.
  2: { assert (HR : Read {| rb := b; ctx_Err := c |} (waiting r) s = Stops stop).
       { unfold Read. rewrite endOffset_at_end by (simpl; lia). rewrite HW. reflexivity. }
       rewrite HR. intros [= <- <-]. apply logged_same. reflexivity. }
  simpl in HW.
  destruct (run_consecutive ops1 b b1 Hb Hc Hle Hcons1)
    as (Hb1 & Hc1 & Hsz1 & Hend1 & Hstart1); [lia | exact E1 |].
  destruct (cancel_after (waiting r) c) as [e |] eqn:Ec.
  { assert (HR : Read {| rb := b; ctx_Err := c |} (waiting r) s =
              Returns (s, [], Some (CtxErr e))).
    { unfold Read. rewrite endOffset_at_end by (simpl; lia). rewrite HW. reflexivity. }
    rewrite HR. intros [= <- <-]. apply logged_same, logged_error. }
  rewrite (Read_woken_consistent {| rb := b; ctx_Err := c |} (waiting r) b1 by_id s);
    [| simpl; lia | simpl; lia | exact HW | exact Hb1 | exact Hc1 | lia].
  rewrite item_ids_by_id. simpl app.
  rewrite turn_end_runs by (right; exact Eb).
  intros H. eapply (Htail (end_ b1)); [lia | exact H].
Qed.

End ReaderLog.

Section ReaderBehind.

Import reader.

Implicit Types (w : World) (b : RingBuffer) (rounds : list Round) (log : list Line).

(** A buffer fed by WriteItems from offset 0 has every item at the offset
    of its id. *)
Lemma WriteItems_by_id n waits st :
  0 <= n <= max_int64 -> Forall typed_wait waits ->
  pgnotifier.WriteItems waits (fresh n 0) = (st, Returns tt) ->
  typed (pgnotifier.rb st) /\ consistent (pgnotifier.rb st) by_id.
Proof.
  intros Hn Hw H.
  assert (Hst : in_step (fresh n 0) st).
  { apply (loop_in_step (fresh n 0) waits
             {| pgnotifier.lastId := -1; pgnotifier.rb := fresh n 0;
                pgnotifier.calls := [] |} st Hw); [| exact H].
    unfold in_step. simpl. repeat split; [constructor | discriminate]. }
  destruct Hst as (Hrun & Hty & _ & Hids).
  destruct (reached_consistent n 0 (fresh n 0) (pgnotifier.calls st) (pgnotifier.rb st))
    as [Hb Hc];
    [lia | split; evaluated | exact Hty | apply NewRingBuffer_returns; lia | exact Hrun |].
  split; [exact Hb |].
  apply (consistent_mono _ _ by_id) in Hc; [exact Hc |].
  intros i it Hh. pose proof (Hids i it Hh) as Hid.
  destruct it as [id]. simpl in Hid. subst id. reflexivity.
Qed.

(** X14: GetUpdates on a buffer fed by WriteItems from offset 0, while the
    items that go on arriving are in sequence (Writes of consecutive ids, no
    Reset) and never more than a windowful during one wait of Read: whatever
    the start, the cancellations and the way it ends, the ids it logs are
    consecutive from the start it was given; none is skipped and none
    repeated. *)
Theorem GetUpdates_logs_run_on n waits st rounds c s log' ended :
  0 <= n <= max_int64 -> Forall typed_wait waits ->
  pgnotifier.WriteItems waits (fresh n 0) = (st, Returns tt) ->
  start (pgnotifier.rb st) <= end_ (pgnotifier.rb st) ->
  consecutive (end_ (pgnotifier.rb st)) (script_ops rounds) ->
  end_ (pgnotifier.rb st) + Z.of_nat (length (script_ops rounds)) <= max_int64 ->
  Forall (fun r => Z.of_nat (length (ops_of (waiting r))) <= n) rounds ->
  GetUpdates rounds {| rb := pgnotifier.rb st; ctx_Err := c |} s [] = (log', ended) ->
  exists m, 0 <= m /\ logged_ids log' = seqZ s m.
Proof.
  intros Hn Hw Hfed Hle Hcons Hmax Hwait H.
  destruct (WriteItems_by_id n waits st Hn Hw Hfed) as [Hb Hc].
  assert (Hsz : size (pgnotifier.rb st) = n).
  { assert (Hst : in_step (fresh n 0) st).
    { apply (loop_in_step (fresh n 0) waits
               {| pgnotifier.lastId := -1; pgnotifier.rb := fresh n 0;
                  pgnotifier.calls := [] |} st Hw); [| exact Hfed].
      unfold in_step. simpl. repeat split; [constructor | discriminate]. }
    destruct Hst as (Hrun & Hty & _).
    assert (Hb0 : typed (fresh n 0)).
    { apply (NewRingBuffer_typed n 0); [lia | split; evaluated |].
      apply NewRingBuffer_returns. lia. }
    destruct (run_typed _ _ _ Hb0 Hty Hrun) as [_ E]. exact E. }
  apply (GetUpdates_contiguous rounds _ c s [] log' ended Hb Hc Hle Hcons Hmax); [| exact H].
  rewrite Hsz. exact Hwait.
Qed.


End ReaderBehind.

(** ** The rewritten Read of the README *)

Section RewrittenRead.

Import rewritten.

Variable AgentEvent : Type.
Variable AgentId : AgentEvent -> Z.

Implicit Types (b : RingBuffer AgentEvent) (wk : Woken AgentEvent)
  (items : list (option AgentEvent)).

(** When the loop returns, it has stopped at the window end (or not moved,
    from a start beyond it) and added the slots of the offsets it went
    through that the filter lets through, in order. *)
Lemma collect_returns fuel : forall b a s acc next items err,
  int64 (end_ b) -> min_int64 <= s ->
  collect AgentId fuel b a s acc = Ret next items err ->
  err = None /\ next = Z.max s (end_ b) /\
  items = acc ++ List.filter (keep AgentId a) (map (slot_at b) (seqZ s (end_ b - s))).
Proof.
  induction fuel as [| fuel IH]; intros b a s acc next items err He Hs; simpl;
    destruct (Z.ltb_spec s (end_ b)) as [Hlt | Hge].
  - discriminate.
  - intros [= <- <- <-]. rewrite seqZ_nil by lia. simpl. rewrite app_nil_r.
    repeat split. lia.
  - destruct (size b =? 0); [discriminate |].
    destruct (Z.ltb_spec (Z.rem s (size b)) 0) as [| Hrem]; [discriminate |].
    simpl. destruct (_ <=? _); [discriminate |].
    destruct (buffer b !! Z.to_nat (Z.rem s (size b))) as [slot |] eqn:Hget;
      [| discriminate].
    assert (Hslot : slot_at b s = slot) by (unfold slot_at; rewrite Hget; reflexivity).
    rewrite wrap64_succ by (unfold int64 in *; lia).
    rewrite (seqZ_cons s) by lia. simpl map. rewrite Hslot.
    replace (Z.succ s) with (s + 1) by lia.
    replace (Z.pred (end_ b - s)) with (end_ b - (s + 1)) by lia.
    simpl List.filter. unfold keep at 1.
    destruct (Z.eqb_spec a 0) as [Ea | Ea]; simpl.
    + intros H. apply IH in H; [| assumption | lia].
      destruct H as (-> & -> & ->). rewrite <- app_assoc. repeat split. lia.
    + destruct slot as [ev |]; [| discriminate]. simpl.
      destruct (AgentId ev =? a); intros H; (apply IH in H; [| assumption | lia]);
        destruct H as (-> & -> & ->); [rewrite <- app_assoc |]; repeat split; lia.
  - intros [= <- <- <-]. rewrite seqZ_nil by lia. simpl. rewrite app_nil_r.
    repeat split. lia.
Qed.

Lemma pending_returns b a s next items err :
  int64 (end_ b) -> min_int64 <= s ->
  pending AgentId b a s = Ret next items err ->
  err = None /\ next = Z.max s (end_ b) /\
  items = List.filter (keep AgentId a) (map (slot_at b) (seqZ s (end_ b - s))).
Proof.
  intros He Hs. unfold pending. destruct (_ <? 0); [discriminate |].
  intros H. apply collect_returns in H; assumption.
Qed.

(** X16: The sentence that closes the comment of the rewritten Read: the
    offset it returns, with or without an error, is never below the start
    it was given. *)
Theorem rewritten_Read_offset_not_below b woken a s next items err :
  int64 s -> int64 (end_ b) ->
  (forall wk, woken = Some wk -> int64 (end_ (found wk))) ->
  Read AgentId b woken a s = Ret next items err ->
  s <= next.
Proof.
  intros Hs He Hwk. unfold Read.
  destruct (Z.ltb_spec s (start b)) as [Hc1 | Hc1]; [intros [= <- _ _]; lia |].
  destruct (Z.ltb_spec s (end_ b)) as [Hc2 | Hc2].
  { intros H. apply pending_returns in H; [| assumption | unfold int64 in Hs; lia].
    destruct H as (_ & -> & _). lia. }
  destruct woken as [wk |]; [| discriminate].
  destruct (ctx_Err wk); [intros [= <- _ _]; lia |].
  destruct (Z.ltb_spec s (start (found wk))) as [Hc3 | Hc3]; [intros [= <- _ _]; lia |].
  destruct (Z.ltb_spec s (end_ (found wk))) as [Hc4 | Hc4].
  { intros H. apply pending_returns in H;
      [| apply Hwk; reflexivity | unfold int64 in Hs; lia].
    destruct H as (_ & -> & _). lia. }
  destruct (s =? end_ (found wk)); intros [= <- _ _]; lia.
Qed.

(** X17: When the rewritten Read returns without error, its start lies in the
    window it returns in (the one it was called in, or the one it found
    after its wait), the offset returned is the end of that window whatever
    the filter, and the items are the slots of the offsets from the start to
    that end that the filter lets through, in order: nothing from outside
    the window, after a wait either. *)
Theorem rewritten_Read_returns_window b woken a s next items :
  int64 s -> int64 (end_ b) ->
  (forall wk, woken = Some wk -> int64 (end_ (found wk))) ->
  Read AgentId b woken a s = Ret next items None ->
  exists bf,
    (bf = b \/ (end_ b <= s /\ exists wk, woken = Some wk /\ bf = found wk)) /\
    start bf <= s <= end_ bf /\
    next = end_ bf /\
    items = List.filter (keep AgentId a) (map (slot_at bf) (seqZ s (end_ bf - s))).
Proof.
  intros Hs He Hwk. unfold Read.
  destruct (Z.ltb_spec s (start b)) as [Hc5 | Hc5]; [discriminate |].
  destruct (Z.ltb_spec s (end_ b)) as [Hc6 | Hc6].
  { intros H. apply pending_returns in H; [| assumption | unfold int64 in Hs; lia].
    destruct H as (_ & -> & ->). exists b.
    split; [left; reflexivity |]. split; [lia |]. split; [lia | reflexivity]. }
  destruct woken as [wk |]; [| discriminate].
  destruct (ctx_Err wk); [discriminate |].
  destruct (Z.ltb_spec s (start (found wk))) as [Hc7 | Hc7]; [discriminate |].
  destruct (Z.ltb_spec s (end_ (found wk))) as [Hc8 | Hc8].
  { intros H. apply pending_returns in H;
      [| apply Hwk; reflexivity | unfold int64 in Hs; lia].
    destruct H as (_ & -> & ->). exists (found wk).
    split; [right; split; [lia | exists wk; split; reflexivity] |].
    split; [lia |]. split; [lia | reflexivity]. }
  destruct (Z.eqb_spec s (end_ (found wk))) as [E | E]; [| discriminate].
  intros [= <- <-]. exists (found wk).
  split; [right; split; [lia | exists wk; split; reflexivity] |].
  split; [lia |]. split; [exact E |].
  rewrite seqZ_nil by lia. reflexivity.
Qed.

End RewrittenRead.

(** ** Instances of the further properties *)

Section MoreInstances.

Import pgnotifier.

Lemma Write_outcome_witness :
  Z.of_nat (length (buffer (fresh 10 0))) = size (fresh 10 0) /\
  exists b', Write (fresh 10 0) (item 0) = Returns b'.
Proof.
  assert (H1 : Z.of_nat (length (buffer (fresh 10 0))) = size (fresh 10 0)) by evaluated.
  split; [exact H1 |].
  apply (proj2 (proj2 (proj2 (Write_outcome (fresh 10 0) (item 0) H1)))).
  split; [evaluated | left; evaluated].
Defined.

Lemma Writes_window_witness :
  typed (fresh 10 0) /\ 0 < size (fresh 10 0) /\
  start (fresh 10 0) <= end_ (fresh 10 0) /\
  end_ (fresh 10 0) - start (fresh 10 0) <= size (fresh 10 0) /\
  0 <= end_ (fresh 10 0) /\
  end_ (fresh 10 0) + Z.of_nat (length (map item (seqZ 0 12))) <= max_int64 /\
  exists b', run (map OpWrite (map item (seqZ 0 12))) (fresh 10 0) = Returns b' /\
             size b' = 10 /\ end_ b' = 12 /\ start b' = 2.
Proof.
  assert (H1 : typed (fresh 10 0)) by typed_here.
  assert (H2 : 0 < size (fresh 10 0)) by evaluated.
  assert (H3 : start (fresh 10 0) <= end_ (fresh 10 0)) by evaluated.
  assert (H4 : end_ (fresh 10 0) - start (fresh 10 0) <= size (fresh 10 0)) by evaluated.
  assert (H5 : 0 <= end_ (fresh 10 0)) by evaluated.
  assert (H6 : end_ (fresh 10 0) + Z.of_nat (length (map item (seqZ 0 12))) <= max_int64)
    by evaluated.
  do 6 (split; [assumption |]).
  destruct (Writes_window (map item (seqZ 0 12)) (fresh 10 0) H1 H2 H3 H4 H5 H6)
    as (b' & Hrun & Hsz & Hend & Hstart).
  exists b'. split; [exact Hrun |]. split; [exact Hsz |].
  split; [exact Hend | exact Hstart].
Defined.

Lemma Read_woken_within_witness :
  10 <= max_int64 /\ int64 0 /\
  Forall typed_op (writes [0; 1; 2]) /\ Forall typed_op (writes [3; 4]) /\
  NewRingBuffer 10 0 = Returns (fresh 10 0) /\
  run (writes [0; 1; 2]) (fresh 10 0) = Returns (filled 10 0 [0; 1; 2]) /\
  start (filled 10 0 [0; 1; 2]) <= 3 /\ 3 = end_ (filled 10 0 [0; 1; 2]) /\
  writes [3; 4] <> [] /\
  run (writes [3; 4]) (filled 10 0 [0; 1; 2]) = Returns (filled 10 0 [0; 1; 2; 3; 4]) /\
  start (filled 10 0 [0; 1; 2; 3; 4]) <= 3 <= end_ (filled 10 0 [0; 1; 2; 3; 4]) /\
  Read (live (filled 10 0 [0; 1; 2])) (map Mutate (writes [3; 4])) 3 =
    Returns (5, [Some (item 3); Some (item 4)], None).
Proof.
  assert (H1 : 10 <= max_int64) by evaluated.
  assert (H2 : int64 0) by bounded.
  assert (H3 : Forall typed_op (writes [0; 1; 2])) by all_of.
  assert (H4 : Forall typed_op (writes [3; 4])) by all_of.
  assert (H5 : NewRingBuffer 10 0 = Returns (fresh 10 0)) by evaluated.
  assert (H6 : run (writes [0; 1; 2]) (fresh 10 0) = Returns (filled 10 0 [0; 1; 2]))
    by evaluated.
  assert (H7 : start (filled 10 0 [0; 1; 2]) <= 3) by evaluated.
  assert (H8 : 3 = end_ (filled 10 0 [0; 1; 2])) by evaluated.
  assert (H9 : writes [3; 4] <> []) by evaluated.
  assert (H10 : run (writes [3; 4]) (filled 10 0 [0; 1; 2])
                = Returns (filled 10 0 [0; 1; 2; 3; 4])) by evaluated.
  assert (H11 : start (filled 10 0 [0; 1; 2; 3; 4]) <= 3
                <= end_ (filled 10 0 [0; 1; 2; 3; 4])) by bounded.
  do 11 (split; [assumption |]).
  etrans; [exact (Read_woken_within 10 0 (fresh 10 0) (writes [0; 1; 2])
                    (filled 10 0 [0; 1; 2]) (writes [3; 4])
                    (filled 10 0 [0; 1; 2; 3; 4]) 3
                    H1 H2 H3 H4 H5 H6 H7 H8 H9 H10 H11) |].
  evaluated.
Defined.

Lemma Read_cancelled_while_waiting_witness :
  start (filled 10 0 [0; 1; 2]) <= 3 /\ 3 = end_ (filled 10 0 [0; 1; 2]) /\
  writes [3] ++ [] <> [] /\
  run (writes [3] ++ []) (filled 10 0 [0; 1; 2]) = Returns (filled 10 0 [0; 1; 2; 3]) /\
  Read (live (filled 10 0 [0; 1; 2])) [Cancel Canceled] 3 = Blocks /\
  Read (live (filled 10 0 [0; 1; 2]))
       (map Mutate (writes [3]) ++ Cancel Canceled :: map Mutate []) 3 =
    Returns (3, [], Some (CtxErr Canceled)).
Proof.
  assert (H1 : start (filled 10 0 [0; 1; 2]) <= 3) by evaluated.
  assert (H2 : 3 = end_ (filled 10 0 [0; 1; 2])) by evaluated.
  assert (H3 : writes [3] ++ [] <> []) by evaluated.
  assert (H4 : run (writes [3] ++ []) (filled 10 0 [0; 1; 2])
               = Returns (filled 10 0 [0; 1; 2; 3])) by evaluated.
  do 4 (split; [assumption |]).
  exact (Read_cancelled_while_waiting (filled 10 0 [0; 1; 2]) (writes [3]) Canceled []
           (filled 10 0 [0; 1; 2; 3]) 3 H1 H2 H3 H4).
Defined.

Lemma Reset_discards_witness :
  typed (filled 10 0 [0; 1; 2]) /\ 0 < size (filled 10 0 [0; 1; 2]) /\
  0 <= 7 < max_int64 /\
  Read (live (Reset (filled 10 0 [0; 1; 2]) 7)) [] 1 =
    Returns (1, [], Some (ErrBeforeBuffer 1 7 6)) /\
  Read (live (Reset (filled 10 0 [0; 1; 2]) 7)) [] 7 = Blocks /\
  Read (live (Reset (filled 10 0 [0; 1; 2]) 7)) [Mutate (OpWrite (item 7))] 7 =
    Returns (8, [Some (item 7)], None).
Proof.
  assert (H1 : typed (filled 10 0 [0; 1; 2])) by typed_here.
  assert (H2 : 0 < size (filled 10 0 [0; 1; 2])) by evaluated.
  assert (H3 : 0 <= 7 < max_int64) by bounded.
  do 3 (split; [assumption |]).
  destruct (Reset_discards (filled 10 0 [0; 1; 2]) 7 (item 7) 1 H1 H2 H3)
    as (Hbelow & _ & Hat & Hnext).
  split; [etrans; [apply Hbelow; evaluated | evaluated] |].
  split; [exact Hat | exact Hnext].
Defined.

Lemma Write_evicts_oldest_witness :
  4 <= max_int64 /\ int64 0 /\ Forall typed_op (writes [0; 1; 2; 3]) /\
  NewRingBuffer 4 0 = Returns (fresh 4 0) /\
  run (writes [0; 1; 2; 3]) (fresh 4 0) = Returns (filled 4 0 [0; 1; 2; 3]) /\
  0 < size (filled 4 0 [0; 1; 2; 3]) /\
  end_ (filled 4 0 [0; 1; 2; 3]) - start (filled 4 0 [0; 1; 2; 3])
    = size (filled 4 0 [0; 1; 2; 3]) /\
  end_ (filled 4 0 [0; 1; 2; 3]) < max_int64 /\
  Write (filled 4 0 [0; 1; 2; 3]) (item 4) = Returns (filled 4 0 [0; 1; 2; 3; 4]) /\
  Read (live (filled 4 0 [0; 1; 2; 3; 4])) [] 0 =
    Returns (0, [], Some (ErrBeforeBuffer 0 1 1)) /\
  Read (live (filled 4 0 [0; 1; 2; 3; 4])) [] 1 =
    Returns (5, [Some (item 1); Some (item 2); Some (item 3); Some (item 4)], None).
Proof.
  assert (H1 : 4 <= max_int64) by evaluated.
  assert (H2 : int64 0) by bounded.
  assert (H3 : Forall typed_op (writes [0; 1; 2; 3])) by all_of.
  assert (H4 : NewRingBuffer 4 0 = Returns (fresh 4 0)) by evaluated.
  assert (H5 : run (writes [0; 1; 2; 3]) (fresh 4 0) = Returns (filled 4 0 [0; 1; 2; 3]))
    by evaluated.
  assert (H6 : 0 < size (filled 4 0 [0; 1; 2; 3])) by evaluated.
  assert (H7 : end_ (filled 4 0 [0; 1; 2; 3]) - start (filled 4 0 [0; 1; 2; 3])
               = size (filled 4 0 [0; 1; 2; 3])) by evaluated.
  assert (H8 : end_ (filled 4 0 [0; 1; 2; 3]) < max_int64) by evaluated.
  assert (H9 : Write (filled 4 0 [0; 1; 2; 3]) (item 4)
               = Returns (filled 4 0 [0; 1; 2; 3; 4])) by evaluated.
  do 9 (split; [assumption |]).
  destruct (Write_evicts_oldest 4 0 (fresh 4 0) (writes [0; 1; 2; 3])
              (filled 4 0 [0; 1; 2; 3]) (item 4) (filled 4 0 [0; 1; 2; 3; 4]) []
              H1 H2 H3 H4 H5 H6 H7 H8 H9) as (_ & _ & Hold & Hnew).
  split; [etrans; [exact Hold | evaluated] | etrans; [exact Hnew | evaluated]].
Defined.

Lemma Reads_compose_witness :
  10 <= max_int64 /\ int64 0 /\ Forall typed_op (writes [0; 1; 2]) /\
  NewRingBuffer 10 0 = Returns (fresh 10 0) /\
  run (writes [0; 1; 2]) (fresh 10 0) = Returns (filled 10 0 [0; 1; 2]) /\
  start (filled 10 0 [0; 1; 2]) <= 1 < end_ (filled 10 0 [0; 1; 2]) /\
  [item 3; item 4] <> [] /\
  end_ (filled 10 0 [0; 1; 2]) + Z.of_nat (length [item 3; item 4]) <= max_int64 /\
  run (map OpWrite [item 3; item 4]) (filled 10 0 [0; 1; 2])
    = Returns (filled 10 0 [0; 1; 2; 3; 4]) /\
  start (filled 10 0 [0; 1; 2; 3; 4]) <= end_ (filled 10 0 [0; 1; 2]) /\
  exists items1 items2,
    Read (live (filled 10 0 [0; 1; 2])) [] 1 = Returns (3, items1, None) /\
    Read (live (filled 10 0 [0; 1; 2; 3; 4])) [] 3 = Returns (5, items2, None) /\
    items1 ++ items2 = [Some (item 1); Some (item 2); Some (item 3); Some (item 4)].
Proof.
  assert (H1 : 10 <= max_int64) by evaluated.
  assert (H2 : int64 0) by bounded.
  assert (H3 : Forall typed_op (writes [0; 1; 2])) by all_of.
  assert (H4 : NewRingBuffer 10 0 = Returns (fresh 10 0)) by evaluated.
  assert (H5 : run (writes [0; 1; 2]) (fresh 10 0) = Returns (filled 10 0 [0; 1; 2]))
    by evaluated.
  assert (H6 : start (filled 10 0 [0; 1; 2]) <= 1 < end_ (filled 10 0 [0; 1; 2]))
    by bounded.
  assert (H7 : [item 3; item 4] <> []) by evaluated.
  assert (H8 : end_ (filled 10 0 [0; 1; 2]) + Z.of_nat (length [item 3; item 4])
               <= max_int64) by evaluated.
  assert (H9 : run (map OpWrite [item 3; item 4]) (filled 10 0 [0; 1; 2])
               = Returns (filled 10 0 [0; 1; 2; 3; 4])) by evaluated.
  assert (H10 : start (filled 10 0 [0; 1; 2; 3; 4]) <= end_ (filled 10 0 [0; 1; 2]))
    by evaluated.
  do 10 (split; [assumption |]).
  destruct (Reads_compose 10 0 (fresh 10 0) (writes [0; 1; 2]) (filled 10 0 [0; 1; 2])
              [item 3; item 4] (filled 10 0 [0; 1; 2; 3; 4]) 1 [] []
              H1 H2 H3 H4 H5 H6 H7 H8 H9 H10)
    as (items1 & items2 & HR1 & HR2 & _ & Hcat).
  exists items1, items2.
  split; [exact HR1 |]. split; [exact HR2 |].
  etrans; [exact Hcat | evaluated].
Defined.

End MoreInstances.

Section SequencerInstances.

Import pgnotifier.

Lemma WriteItems_exits_at_error_witness :
  WriteItems (got [0; 1]) (fresh 10 0)
    = ((WriteItems (got [0; 1]) (fresh 10 0)).1, Returns tt) /\
  (WriteItems (got [0; 1] ++ GotError :: got [2]) (fresh 10 0)).2 = Stops Exited /\
  calls (WriteItems (got [0; 1] ++ GotError :: got [2]) (fresh 10 0)).1 = writes [0; 1].
Proof.
  assert (H1 : WriteItems (got [0; 1]) (fresh 10 0)
               = ((WriteItems (got [0; 1]) (fresh 10 0)).1, Returns tt)) by evaluated.
  split; [exact H1 |].
  rewrite (WriteItems_exits_at_error (got [0; 1]) (got [2]) (fresh 10 0) _ H1).
  split; evaluated.
Defined.

Lemma gap_to_negative_id_panics_witness :
  WriteItems (got [0]) (fresh 10 0)
    = ((WriteItems (got [0]) (fresh 10 0)).1, Returns tt) /\
  Z.of_nat (length (buffer (rb (WriteItems (got [0]) (fresh 10 0)).1)))
    = size (rb (WriteItems (got [0]) (fresh 10 0)).1) /\
  0 < size (rb (WriteItems (got [0]) (fresh 10 0)).1) /\
  Id (item (-3)) <> wrap64 (lastId (WriteItems (got [0]) (fresh 10 0)).1 + 1) /\
  Z.rem (Id (item (-3))) (size (rb (WriteItems (got [0]) (fresh 10 0)).1)) < 0 /\
  (WriteItems (got [0] ++ GotItem (item (-3)) :: got [1]) (fresh 10 0)).2
    = Panics IndexOutOfRange /\
  lastId (WriteItems (got [0] ++ GotItem (item (-3)) :: got [1]) (fresh 10 0)).1 = 0.
Proof.
  assert (H1 : WriteItems (got [0]) (fresh 10 0)
               = ((WriteItems (got [0]) (fresh 10 0)).1, Returns tt)) by evaluated.
  assert (H2 : Z.of_nat (length (buffer (rb (WriteItems (got [0]) (fresh 10 0)).1)))
               = size (rb (WriteItems (got [0]) (fresh 10 0)).1)) by evaluated.
  assert (H3 : 0 < size (rb (WriteItems (got [0]) (fresh 10 0)).1)) by evaluated.
  assert (H4 : Id (item (-3))
               <> wrap64 (lastId (WriteItems (got [0]) (fresh 10 0)).1 + 1)) by evaluated.
  assert (H5 : Z.rem (Id (item (-3))) (size (rb (WriteItems (got [0]) (fresh 10 0)).1)) < 0)
    by evaluated.
  do 5 (split; [assumption |]).
  rewrite (gap_to_negative_id_panics (got [0]) (fresh 10 0) _ (item (-3)) (got [1])
             H1 H2 H3 H4 H5).
  split; evaluated.
Defined.


Lemma latest_item_readable_witness :
  0 < 10 <= max_int64 /\ Forall feedable (got [0; 1]) /\ Forall typed_wait (got [0; 1]) /\
  0 <= Id (item 5) < max_int64 /\
  exists st,
    WriteItems (got [0; 1] ++ GotItem (item 5) :: replicate 1 GotNothing) (fresh 10 0)
      = (st, Returns tt) /\
    lastId st = 5 /\
    Read (live (rb st)) [] 5 = Returns (6, [Some (item 5)], None).
Proof.
  assert (H1 : 0 < 10 <= max_int64) by bounded.
  assert (H2 : Forall feedable (got [0; 1])) by all_of.
  assert (H3 : Forall typed_wait (got [0; 1])) by all_of.
  assert (H4 : 0 <= Id (item 5) < max_int64) by bounded.
  do 4 (split; [assumption |]).
  destruct (latest_item_readable 10 (got [0; 1]) (item 5) 1 [] H1 H2 H3 H4)
    as (st & Hst & Hlast & Hread).
  exists st. split; [exact Hst |]. split; [exact Hlast | exact Hread].
Defined.

Lemma Read_after_WriteItems_witness :
  0 <= 10 <= max_int64 /\ Forall typed_wait (got [0; 1; 2; 4; 5]) /\
  WriteItems (got [0; 1; 2; 4; 5]) (fresh 10 0)
    = ((WriteItems (got [0; 1; 2; 4; 5]) (fresh 10 0)).1, Returns tt) /\
  start (rb (WriteItems (got [0; 1; 2; 4; 5]) (fresh 10 0)).1) <= 4
    < end_ (rb (WriteItems (got [0; 1; 2; 4; 5]) (fresh 10 0)).1) /\
  Read (live (rb (WriteItems (got [0; 1; 2; 4; 5]) (fresh 10 0)).1)) [] 4 =
    Returns (6, [Some (item 4); Some (item 5)], None).
Proof.
  assert (H1 : 0 <= 10 <= max_int64) by bounded.
  assert (H2 : Forall typed_wait (got [0; 1; 2; 4; 5])) by all_of.
  assert (H3 : WriteItems (got [0; 1; 2; 4; 5]) (fresh 10 0)
               = ((WriteItems (got [0; 1; 2; 4; 5]) (fresh 10 0)).1, Returns tt))
    by evaluated.
  assert (H4 : start (rb (WriteItems (got [0; 1; 2; 4; 5]) (fresh 10 0)).1) <= 4
               < end_ (rb (WriteItems (got [0; 1; 2; 4; 5]) (fresh 10 0)).1)) by bounded.
  do 4 (split; [assumption |]).
  etrans; [exact (Read_after_WriteItems 10 (got [0; 1; 2; 4; 5]) _ [] 4 H1 H2 H3 H4) |].
  evaluated.
Defined.

End SequencerInstances.

Section ReaderInstances.

Import reader.

Lemma GetUpdates_logs_run_on_witness :
  0 <= 10 <= max_int64 /\ Forall typed_wait (got [0; 1; 2]) /\
  GetUpdates
    [ {| waiting := []; pausing := [Mutate (OpWrite (item 3))]; chosen := Tick |};
      {| waiting := [Mutate (OpWrite (item 4))]; pausing := []; chosen := Tick |};
      {| waiting := [Mutate (OpWrite (item 5)); Mutate (OpWrite (item 6))];
         pausing := [Cancel Canceled]; chosen := Done |} ]
    (live (pgnotifier.rb (pgnotifier.WriteItems (got [0; 1; 2]) (fresh 10 0)).1)) 0 []
    = ([LogIds [0; 1; 2]; LogIds [3]; LogIds [4]], Err (CtxErr Canceled)) /\
  exists m, 0 <= m /\
    logged_ids [LogIds [0; 1; 2]; LogIds [3]; LogIds [4]] = seqZ 0 m.
Proof.
  assert (H1 : 0 <= 10 <= max_int64) by bounded.
  assert (H2 : Forall typed_wait (got [0; 1; 2])) by all_of.
  split; [assumption |]. split; [assumption |].
  set (rounds :=
    [ {| waiting := []; pausing := [Mutate (OpWrite (item 3))]; chosen := Tick |};
      {| waiting := [Mutate (OpWrite (item 4))]; pausing := []; chosen := Tick |};
      {| waiting := [Mutate (OpWrite (item 5)); Mutate (OpWrite (item 6))];
         pausing := [Cancel Canceled]; chosen := Done |} ]).
  set (st := (pgnotifier.WriteItems (got [0; 1; 2]) (fresh 10 0)).1).
  assert (H3 : pgnotifier.WriteItems (got [0; 1; 2]) (fresh 10 0) = (st, Returns tt))
    by evaluated.
  assert (H4 : start (pgnotifier.rb st) <= end_ (pgnotifier.rb st)) by evaluated.
  assert (H5 : consecutive (end_ (pgnotifier.rb st)) (script_ops rounds))
    by (vm_compute; repeat split).
  assert (H6 : end_ (pgnotifier.rb st) + Z.of_nat (length (script_ops rounds)) <= max_int64)
    by evaluated.
  assert (H7 : Forall (fun r => Z.of_nat (length (ops_of (waiting r))) <= 10) rounds)
    by (subst rounds; all_of).
  assert (H8 : GetUpdates rounds {| rb := pgnotifier.rb st; ctx_Err := None |} 0 []
               = ([LogIds [0; 1; 2]; LogIds [3]; LogIds [4]], Err (CtxErr Canceled)))
    by evaluated.
  split; [exact H8 |].
  exact (GetUpdates_logs_run_on 10 (got [0; 1; 2]) st rounds None 0 _ _
           H1 H2 H3 H4 H5 H6 H7 H8).
Defined.


End ReaderInstances.

Section RewrittenInstances.

Import rewritten.

Lemma rewritten_Read_offset_not_below_witness :
  int64 0 /\ int64 3 /\
  Read (fun z : Z => z)
       {| buffer := [Some 7; Some 8; Some 7; None]; size := 4; start := 0; end_ := 3 |}
       None 7 0 = Ret 3 [Some 7; Some 7] None /\
  0 <= 3.
Proof.
  assert (H1 : int64 0) by bounded.
  assert (H2 : int64 3) by bounded.
  assert (H3 : Read (fun z : Z => z)
                 {| buffer := [Some 7; Some 8; Some 7; None]; size := 4;
                    start := 0; end_ := 3 |} None 7 0
               = Ret 3 [Some 7; Some 7] None) by evaluated.
  do 3 (split; [assumption |]).
  apply (rewritten_Read_offset_not_below Z (fun z => z)
           {| buffer := [Some 7; Some 8; Some 7; None]; size := 4; start := 0; end_ := 3 |}
           None 7 0 3 [Some 7; Some 7] None H1 H2); [| exact H3].
  intros wk Hwk. discriminate Hwk.
Defined.

Lemma rewritten_Read_returns_window_witness :
  int64 3 /\ int64 3 /\
  Read (fun z : Z => z)
       {| buffer := [Some 7; Some 8; Some 7; None]; size := 4; start := 0; end_ := 3 |}
       (Some {| found := {| buffer := [Some 9; Some 7; Some 7; Some 7]; size := 4;
                            start := 2; end_ := 6 |};
                ctx_Err := None |})
       7 3 = Ret 6 [Some 7; Some 7] None /\
  exists bf : RingBuffer Z,
    start bf <= 3 <= end_ bf /\ 6 = end_ bf /\
    [Some 7; Some 7]
      = List.filter (keep (fun z : Z => z) 7) (map (slot_at bf) (seqZ 3 (end_ bf - 3))).
Proof.
  assert (H1 : int64 3) by bounded.
  set (b := {| buffer := [Some 7; Some 8; Some 7; None]; size := 4;
               start := 0; end_ := 3 |} : RingBuffer Z).
  set (wk := {| found := {| buffer := [Some 9; Some 7; Some 7; Some 7]; size := 4;
                            start := 2; end_ := 6 |};
                ctx_Err := None |} : Woken Z).
  assert (H3 : Read (fun z : Z => z) b (Some wk) 7 3 = Ret 6 [Some 7; Some 7] None)
    by evaluated.
  do 2 (split; [exact H1 |]). split; [exact H3 |].
  destruct (rewritten_Read_returns_window Z (fun z => z) b (Some wk) 7 3 6
              [Some 7; Some 7] H1 H1) as (bf & _ & Hin & Hnext & Hitems);
    [intros wk' [= <-]; bounded | exact H3 |].
  exists bf. split; [exact Hin |]. split; [exact Hnext | exact Hitems].
Defined.

End RewrittenInstances.
